(** * Finance Tracker: the CSV parser, the upload controller and the
      auth controller of [src/App.tsx] and [src/AuthContext.tsx]

    The TypeScript code is embedded shallowly.  A JavaScript string is the
    list of its UTF-16 code units, [undefined] is [None], a thrown error is
    a constructor of a completion type, React state and [localStorage] are
    threaded through explicitly. *)

From Stdlib Require Import ZArith NArith Lia Ascii String.
From Stdlib Require DecimalN.
From stdpp Require Import base option list gmap strings.

Local Open Scope N_scope.

(** ** JavaScript strings *)

Module JS.

(** A string is its sequence of UTF-16 code units. *)
Abbreviation jsstring := (list N).

(** The code units of a literal of the source (all of them are ASCII). *)
Definition lit (s : string) : jsstring :=
  (λ a, N_of_ascii a) <$> list_ascii_of_string s.

Definition LF : N := 10.
Definition COMMA : N := 44.
Definition QUOTE : N := 34.

(** [WhiteSpace] and [LineTerminator] of ECMAScript: what [trim] strips. *)
Definition isWhiteSpace (c : N) : bool :=
  (9 <=? c) && (c <=? 13)
  || (c =? 32) || (c =? 160) || (c =? 5760)
  || (8192 <=? c) && (c <=? 8202)
  || (c =? 8232) || (c =? 8233) || (c =? 8239) || (c =? 8287)
  || (c =? 12288) || (c =? 65279).

Fixpoint trimStart (s : jsstring) : jsstring :=
  match s with
  | c :: s' => if isWhiteSpace c then trimStart s' else s
  | [] => []
  end.

Definition trimEnd (s : jsstring) : jsstring :=
  reverse (trimStart (reverse s)).

(** [s.trim()] *)
Definition trim (s : jsstring) : jsstring := trimEnd (trimStart s).

(** [s.split(sep)] for a separator of one code unit; [cur] is the field
    being read. *)
Fixpoint split_from (sep : N) (cur : jsstring) (s : jsstring)
  : list jsstring :=
  match s with
  | [] => [cur]
  | c :: s' =>
      if c =? sep then cur :: split_from sep [] s'
      else split_from sep (cur ++ [c]) s'
  end.

Definition split (sep : N) (s : jsstring) : list jsstring :=
  split_from sep [] s.

(** [s.replace(re, '')] where [re] is the global regular expression of
    the double-quote character: the flag [g] makes it replace every
    occurrence. *)
Definition replace_quotes (s : jsstring) : jsstring :=
  filter (λ c, c ≠ QUOTE) s.

(** [s.toLowerCase()].  The letters A-Z and the Kelvin sign are the only
    code points whose lower case is an ASCII letter; the upper-case
    letters of Latin-1 are mapped as well.  Other code units are left as they
    are: their lower-case forms are not ASCII, and the parser only
    compares the result with ASCII literals. *)
Definition lower (c : N) : N :=
  if (65 <=? c) && (c <=? 90) then c + 32
  else if c =? 8490 then 107
  else if (192 <=? c) && (c <=? 222) && negb (c =? 215) then c + 32
  else c.

Definition toLowerCase (s : jsstring) : jsstring := lower <$> s.

(** [s.endsWith(suffix)] *)
Definition endsWith (s suffix : jsstring) : bool :=
  bool_decide (drop (length s - length suffix) s = suffix)
  && bool_decide (length suffix ≤ length s)%nat.

(** [arr.findIndex(p)]: the first index whose element satisfies [p],
    [-1] when there is none. *)
Fixpoint findIndex_from {A} (p : A → bool) (i : Z) (l : list A) : Z :=
  match l with
  | [] => (-1)%Z
  | x :: l' => if p x then i else findIndex_from p (i + 1)%Z l'
  end.

Definition findIndex {A} (p : A → bool) (l : list A) : Z :=
  findIndex_from p 0%Z l.

(** [arr[i]]: [undefined] out of range. *)
Definition at_index {A} (l : list A) (i : Z) : option A :=
  if (i <? 0)%Z then None else l !! Z.to_nat i.

End JS.

Import JS.

(** ** Numbers *)

Module Number.

(** A Number value: a binary64 float.  [Finite neg m e] is
    [(-1)^neg * m * 2^e] in canonical form ([m < 2^53], [-1074 <= e <= 971],
    and [2^52 <= m] unless [e = -1074]); zero is [Finite _ 0 (-1074)]. *)
Inductive number :=
  | NaN
  | Infinity (neg : bool)
  | Finite (neg : bool) (m : N) (e : Z).

#[global] Instance number_eq_dec : EqDecision number.
Proof. solve_decision. Defined.

(** [x < 0] *)
Definition lt_zero (x : number) : bool :=
  match x with
  | NaN => false
  | Infinity neg => neg
  | Finite neg m _ => neg && negb (m =? 0)
  end.

Local Open Scope Z_scope.

(** The binary64 value nearest to [num / den] (ties to even), for
    [0 < num] and [0 < den]; [None] is an overflow. *)
Definition round_ratio (num den : Z) : option (N * Z) :=
  let e0 := Z.log2 num - Z.log2 den in
  let below :=
    if 0 <=? e0 then num <? den * 2 ^ e0 else num * 2 ^ (- e0) <? den in
  let e := if below then e0 - 1 else e0 in
  let q := Z.max (e - 52) (-1074) in
  let a := if 0 <=? q then num else num * 2 ^ (- q) in
  let b := if 0 <=? q then den * 2 ^ q else den in
  let n0 := a / b in
  let r := a mod b in
  let up := (b <? 2 * r) || ((b =? 2 * r) && Z.odd n0) in
  let n := if up then n0 + 1 else n0 in
  let '(n, q) := if n =? 2 ^ 53 then (2 ^ 52, q + 1) else (n, q) in
  if 971 <? q then None else Some (Z.to_N n, q).

(** The Number value of the decimal [digits * 10^exp10] with sign [neg]. *)
Definition of_decimal (neg : bool) (digits : N) (exp10 : Z) : number :=
  if (digits =? 0)%N then Finite neg 0 (-1074)
  else
    let d := Z.of_N digits in
    let r :=
      if 0 <=? exp10 then round_ratio (d * 10 ^ exp10) 1
      else round_ratio d (10 ^ (- exp10)) in
    match r with
    | Some (m, e) => Finite neg m e
    | None => Infinity neg
    end.

End Number.

Import Number.

(** ** [parseFloat] *)

Definition isDigit (c : N) : bool := (48 <=? c) && (c <=? 57).

(** The longest prefix of decimal digits (their values) and what follows. *)
Fixpoint digits_prefix (s : jsstring) : list N * jsstring :=
  match s with
  | c :: s' =>
      if isDigit c then
        let '(ds, rest) := digits_prefix s' in (c - 48 :: ds, rest)
      else ([], s)
  | [] => ([], [])
  end.

Definition digits_value (ds : list N) : N :=
  foldl (λ acc d, 10 * acc + d) 0 ds.

(** An optional sign: whether it is a minus, and what follows. *)
Definition sign_prefix (s : jsstring) : bool * jsstring :=
  match s with
  | c :: s' =>
      if c =? 45 then (true, s') else if c =? 43 then (false, s') else (false, s)
  | [] => (false, [])
  end.

(** [SignedInteger]: [None] when no digit follows the optional sign. *)
Definition signed_integer (s : jsstring) : option Z :=
  let '(neg, s1) := sign_prefix s in
  match digits_prefix s1 with
  | ([], _) => None
  | (ds, _) =>
      let v := Z.of_N (digits_value ds) in Some (if neg then (- v)%Z else v)
  end.

(** The value of the [ExponentPart] at the head of [s]; [0] when the
    longest literal stops before [s]. *)
Definition exponent_part (s : jsstring) : Z :=
  match s with
  | c :: s' =>
      if (c =? 101) || (c =? 69) then default 0%Z (signed_integer s') else 0%Z
  | [] => 0%Z
  end.

Definition starts_with (p s : jsstring) : bool :=
  bool_decide (take (length p) s = p).

(** [parseFloat(x)]: [ToString] of the argument ([undefined] gives the
    string [undefined]), leading white space skipped, then the longest
    prefix that is a [StrDecimalLiteral]; [NaN] when there is none. *)
Definition parseFloat (x : option jsstring) : number :=
  let inputString := default (lit "undefined") x in
  let trimmed := trimStart inputString in
  let '(neg, s) := sign_prefix trimmed in
  if starts_with (lit "Infinity") s then Infinity neg
  else
    let '(ip, s1) := digits_prefix s in
    match s1 with
    | c :: s2 =>
        if c =? 46 then
          let '(fp, s3) := digits_prefix s2 in
          match ip, fp with
          | [], [] => NaN
          | _, _ =>
              of_decimal neg (digits_value (ip ++ fp))
                (exponent_part s3 - Z.of_nat (length fp))
          end
        else
          match ip with
          | [] => NaN
          | _ => of_decimal neg (digits_value ip) (exponent_part s1)
          end
    | [] =>
        match ip with
        | [] => NaN
        | _ => of_decimal neg (digits_value ip) 0
        end
    end.

(** ** The CSV parser ([parseCSV] of [src/App.tsx]) *)

(** [interface Transaction].  The two strings are read with [cols[i]],
    which is [undefined] for a row that is too short. *)
Record Transaction := mkTransaction {
  date : option jsstring;
  name : option jsstring;
  amount : number
}.

#[global] Instance Transaction_eq_dec : EqDecision Transaction.
Proof. solve_decision. Defined.

(** What a call can throw: an [Error] made with [new Error(message)], the
    [TypeError] of a property read or a method call on [undefined] or
    [null], or the [TypeError] of an object that cannot be converted to a
    primitive value; the messages of the last two are the engine's. *)
Inductive exn :=
  | Error (message : jsstring)
  | TypeError
  | NotPrimitive.

Inductive completion (A : Type) :=
  | Return (a : A)
  | Throw (e : exn).
Arguments Return {A} a.
Arguments Throw {A} e.

Definition missing_columns : jsstring :=
  lit "CSV must have Date, Name, and Amount columns".

(** [line.split(',').map(c => c.trim().replace(re, ''))] *)
Definition fields (line : jsstring) : list jsstring :=
  (λ c, replace_quotes (trim c)) <$> split COMMA line.

Definition is_header (h0 : string) (h : jsstring) : bool :=
  bool_decide (toLowerCase h = lit h0).

(** The body of the [for] loop: the transactions after row [cols]. *)
Definition push_row (dateIdx nameIdx amountIdx : Z)
    (transactions : list Transaction) (cols : list jsstring)
  : list Transaction :=
  let amount := parseFloat (at_index cols amountIdx) in
  if lt_zero amount then
    transactions ++
      [ {| date := at_index cols dateIdx;
           name := at_index cols nameIdx;
           amount := amount |} ]
  else transactions.

(** [for (let i = ...; i < lines.length; i++)]: [n] bounds the iterations
    that are left. *)
Fixpoint for_rows (n : nat) (lines : list jsstring)
    (dateIdx nameIdx amountIdx : Z) (i : nat)
    (transactions : list Transaction) : completion (list Transaction) :=
  if bool_decide (i < length lines)%nat then
    match n with
    | O => Return transactions
    | S n' =>
        match lines !! i with
        | None => Throw TypeError
        | Some line =>
            for_rows n' lines dateIdx nameIdx amountIdx (S i)
              (push_row dateIdx nameIdx amountIdx transactions (fields line))
        end
    end
  else Return transactions.

Definition parseCSV (text : jsstring) : completion (list Transaction) :=
  let lines := split LF (trim text) in
  if bool_decide (length lines < 2)%nat then Return []
  else
    match lines !! 0%nat with
    | None => Throw TypeError
    | Some line0 =>
        let headers := fields line0 in
        let dateIdx := findIndex (is_header "date") headers in
        let nameIdx := findIndex (is_header "name") headers in
        let amountIdx := findIndex (is_header "amount") headers in
        if bool_decide (dateIdx = (-1)%Z) || bool_decide (nameIdx = (-1)%Z)
           || bool_decide (amountIdx = (-1)%Z)
        then Throw (Error missing_columns)
        else for_rows (length lines) lines dateIdx nameIdx amountIdx 1 []
    end.

(** ** JSON values and the engine *)

(** What [res.json()] and [JSON.parse] return.  The fields of an object
    are in the order of the text; of two fields with one name the later
    is the property. *)
#[warnings="-register-all"]
Inductive JSON :=
  | JNull
  | JBool (b : bool)
  | JNumber (n : number)
  | JString (s : jsstring)
  | JArray (items : list JSON)
  | JObject (members : list (jsstring * JSON)).

(** [!!v] *)
Definition truthy (v : JSON) : bool :=
  match v with
  | JNull => false
  | JBool b => b
  | JNumber NaN => false
  | JNumber (Infinity _) => true
  | JNumber (Finite _ m _) => negb (m =? 0)
  | JString s => negb (bool_decide (s = []))
  | JArray _ | JObject _ => true
  end.

(** [!!s] for a string that may be [null]. *)
Definition nonempty (s : option jsstring) : bool :=
  match s with
  | Some (_ :: _) => true
  | _ => false
  end.

(** The first value bound to [k]. *)
Fixpoint assoc {V} (k : jsstring) (l : list (jsstring * V)) : option V :=
  match l with
  | [] => None
  | (k', v) :: l' => if bool_decide (k' = k) then Some v else assoc k l'
  end.

(** The property [k] of a parsed object: [undefined] when it has none. *)
Definition member (k : jsstring) (members : list (jsstring * JSON))
  : option JSON :=
  assoc k (reverse members).

(** [v.k]: a [TypeError] on [null]; numbers, strings, booleans and arrays
    have no property of the names read here. *)
Definition get_property (v : JSON) (k : jsstring) : completion (option JSON) :=
  match v with
  | JNull => Throw TypeError
  | JObject members => Return (member k members)
  | _ => Return None
  end.

(** [res.ok] *)
Definition ok (status : Z) : bool := (200 <=? status)%Z && (status <=? 299)%Z.

(** What [fetch] settles to: it rejects, or it resolves to a response,
    with its status and what [res.json()] settles to. *)
Inductive fetch_outcome :=
  | Rejected (e : exn)
  | Response (status : Z) (json : completion JSON).

(** Sequencing: a [Throw] skips what follows. *)
#[global] Instance completion_bind : MBind completion :=
  λ A B k c, match c with Return a => k a | Throw e => Throw e end.

(** ** The upload controller ([App] of [src/App.tsx]) *)

(** A [File]: its name and what [f.text()] settles to. *)
Record File := mkFile {
  file_name : jsstring;
  file_text : completion jsstring
}.

(** The state of the component, one field per [useState]. *)
Record AppState := mkApp {
  file : option File;
  transactions : list Transaction;
  dragActive : bool;
  error : option jsstring;
  loading : bool;
  result : option JSON
}.

Definition setFile (f : option File) (st : AppState) : AppState :=
  mkApp f (transactions st) (dragActive st) (error st) (loading st) (result st).
Definition setTransactions (ts : list Transaction) (st : AppState) : AppState :=
  mkApp (file st) ts (dragActive st) (error st) (loading st) (result st).
Definition setError (e : option jsstring) (st : AppState) : AppState :=
  mkApp (file st) (transactions st) (dragActive st) e (loading st) (result st).
Definition setLoading (b : bool) (st : AppState) : AppState :=
  mkApp (file st) (transactions st) (dragActive st) (error st) b (result st).
Definition setResult (r : option JSON) (st : AppState) : AppState :=
  mkApp (file st) (transactions st) (dragActive st) (error st) (loading st) r.

Definition initial_app : AppState := mkApp None [] false None false None.

(** ** The auth controller ([AuthProvider] of [src/AuthContext.tsx]) *)

Inductive storage_call :=
  | SetItem (key value : jsstring)
  | RemoveItem (key : jsstring).

Inductive console_entry :=
  | ConsoleError (label : jsstring) (e : exn)
  | ConsoleErrorText (label text : jsstring)
  | ConsoleLog (text : jsstring).

(** The state of the provider ([user], [isLoading]) and of the page:
    [localStorage] with the calls made on it, the console, and the query
    parameters of the address.  [user] is [JNull] for [null]. *)
Record AuthState := mkAuth {
  user : JSON;
  isLoading : bool;
  storage : gmap jsstring jsstring;
  storage_calls : list storage_call;
  console : list console_entry;
  search : list (jsstring * jsstring)
}.

Definition setUser (u : JSON) (st : AuthState) : AuthState :=
  mkAuth u (isLoading st) (storage st) (storage_calls st) (console st) (search st).
Definition setIsLoading (b : bool) (st : AuthState) : AuthState :=
  mkAuth (user st) b (storage st) (storage_calls st) (console st) (search st).
Definition setItem (k v : jsstring) (st : AuthState) : AuthState :=
  mkAuth (user st) (isLoading st) (<[k:=v]> (storage st))
    (storage_calls st ++ [SetItem k v]) (console st) (search st).
Definition removeItem (k : jsstring) (st : AuthState) : AuthState :=
  mkAuth (user st) (isLoading st) (delete k (storage st))
    (storage_calls st ++ [RemoveItem k]) (console st) (search st).
Definition getItem (k : jsstring) (st : AuthState) : option jsstring :=
  storage st !! k.
Definition log (entry : console_entry) (st : AuthState) : AuthState :=
  mkAuth (user st) (isLoading st) (storage st) (storage_calls st)
    (console st ++ [entry]) (search st).

(** [window.history.replaceState({}, document.title, location.pathname)] *)
Definition replaceState (st : AuthState) : AuthState :=
  mkAuth (user st) (isLoading st) (storage st) (storage_calls st)
    (console st) [].

(** [params.get(k)]: the first value of the name, [null] when absent. *)
Definition get (k : jsstring) (params : list (jsstring * jsstring))
  : option jsstring :=
  assoc k params.

Definition google_access_token : jsstring := lit "google_access_token".
Definition google_user_info : jsstring := lit "google_user_info".
Definition google_token_expiry : jsstring := lit "google_token_expiry".

Definition remove_keys (st : AuthState) : AuthState :=
  removeItem google_token_expiry
    (removeItem google_user_info (removeItem google_access_token st)).

Definition signOut (st : AuthState) : AuthState :=
  setUser JNull (remove_keys st).

Definition getAccessToken (st : AuthState) : option jsstring :=
  getItem google_access_token st.

(** [isAuthenticated: !!user] *)
Definition isAuthenticated (st : AuthState) : bool := truthy (user st).

Definition initial_auth (stored : gmap jsstring jsstring)
    (query : list (jsstring * jsstring)) : AuthState :=
  mkAuth JNull true stored [] [] query.

(** ** The operations that depend on the engine *)

Section Engine.

(** The message that the engine gives to each of its [TypeError]s,
    [Number::toString], [JSON.parse] (which throws on a text that is not
    JSON) and [JSON.stringify]. *)
Variable TypeError_message : exn → jsstring.
Variable Number_toString : number → jsstring.
Variable JSON_parse : jsstring → completion JSON.
Variable JSON_stringify : JSON → jsstring.

(** [ToString(v)], as [new Error(v)] applies it to its argument.  An
    array is joined with commas, [null] elements giving the empty string.
    An object goes through [toString] and [valueOf]: a parsed object with
    a member named [toString] hides the method of [Object.prototype]
    with a value that cannot be called, the inherited [valueOf] returns
    the object itself, and the conversion throws; without such a member
    the inherited [toString] answers. *)
Fixpoint ToString (v : JSON) : completion jsstring :=
  match v with
  | JNull => Return (lit "null")
  | JBool true => Return (lit "true")
  | JBool false => Return (lit "false")
  | JNumber n => Return (Number_toString n)
  | JString s => Return s
  | JArray items =>
      let element x := match x with JNull => Return [] | _ => ToString x end in
      (fix join (l : list JSON) : completion jsstring :=
         match l with
         | [] => Return []
         | x :: l' =>
             match l' with
             | [] => element x
             | _ :: _ =>
                 match element x with
                 | Return s0 =>
                     match join l' with
                     | Return r => Return (s0 ++ COMMA :: r)
                     | Throw e => Throw e
                     end
                 | Throw e => Throw e
                 end
             end
         end) items
  | JObject members =>
      match member (lit "toString") members with
      | Some _ => Throw NotPrimitive
      | None => Return (lit "[object Object]")
      end
  end.

(** [err instanceof Error ? err.message : fallback].  Every value thrown
    in these functions is an instance of [Error]: the fallback is never
    taken. *)
Definition message_or (fallback : jsstring) (e : exn) : jsstring :=
  match e with
  | Error message => message
  | TypeError => TypeError_message TypeError
  | NotPrimitive => TypeError_message NotPrimitive
  end.

(** [handleFile(f)] *)
Definition handleFile (f : File) (st : AppState) : AppState :=
  if negb (endsWith (file_name f) (lit ".csv")) then
    setError (Some (lit "Please upload a CSV file")) st
  else
    let st := setFile (Some f) (setError None st) in
    match text ← file_text f; parseCSV text with
    | Return ts => setTransactions ts st
    | Throw err =>
        setTransactions []
          (setError (Some (message_or (lit "Failed to parse CSV") err)) st)
    end.

(** [clear()] *)
Definition clear (st : AppState) : AppState :=
  setResult None (setError None (setTransactions [] (setFile None st))).

(** [err.detail || 'Import failed'], then [new Error(...)] of it, which
    converts it to a string. *)
Definition import_error (err : JSON) : completion JSON :=
  detail ← get_property err (lit "detail");
  message ←
    match detail with
    | Some d => if truthy d then ToString d else Return (lit "Import failed")
    | None => Return (lit "Import failed")
    end;
  Throw (Error message).

(** A value as a state that may be [null]: [None] is [null]. *)
Definition nullable (v : JSON) : option JSON :=
  match v with
  | JNull => None
  | _ => Some v
  end.

(** [handleSubmit()], where [net] is what the [fetch] settles to. *)
Definition handleSubmit (net : fetch_outcome) (st : AppState) : AppState :=
  if negb (bool_decide (is_Some (file st)))
     || bool_decide (length (transactions st) = 0%nat)
  then st
  else
    let st := setResult None (setError None (setLoading true st)) in
    let attempt : completion JSON :=
      match net with
      | Rejected e => Throw e
      | Response status json =>
          if negb (ok status) then err ← json; import_error err
          else json
      end in
    let st :=
      match attempt with
      | Return data => setResult (nullable data) st
      | Throw err => setError (Some (message_or (lit "Import failed") err)) st
      end in
    setLoading false st.

(** [checkAuth()], where [net] is what the [fetch] of the token check
    settles to. *)
Definition checkAuth (net : fetch_outcome) (st : AuthState) : AuthState :=
  let token := getItem google_access_token st in
  let userInfo := getItem google_user_info st in
  let st :=
    if nonempty token && nonempty userInfo then
      let attempt : completion AuthState :=
        match net with
        | Rejected e => Throw e
        | Response status _ =>
            if ok status then
              u ← JSON_parse (default [] userInfo); Return (setUser u st)
            else Return (remove_keys st)
        end in
      match attempt with
      | Return st' => st'
      | Throw e => remove_keys (log (ConsoleError (lit "Auth check failed:") e) st)
      end
    else st in
  setIsLoading false st.

Definition refresh_token_log (refreshToken : jsstring) : list console_entry :=
  [ ConsoleLog
      (55357 :: 56593 :: lit " GOOGLE_REFRESH_TOKEN for backend (.env file):");
    ConsoleLog refreshToken;
    ConsoleLog (LF :: lit "Add this to your .env file:");
    ConsoleLog (lit "GOOGLE_REFRESH_TOKEN=" ++ QUOTE :: refreshToken ++ [QUOTE]) ].

(** [handleOAuthCallback(params)] *)
Definition handleOAuthCallback (params : list (jsstring * jsstring))
    (st : AuthState) : AuthState :=
  let accessToken := get (lit "access_token") params in
  let expiry := get (lit "expiry") params in
  let userJson := get (lit "user") params in
  let refreshToken := get (lit "refresh_token") params in
  let attempt : completion AuthState :=
    if negb (nonempty accessToken) || negb (nonempty userJson) then
      Throw (Error (lit "Missing authentication data"))
    else
      userData ← JSON_parse (default [] userJson);
      let st := setItem google_access_token (default [] accessToken) st in
      let st := setItem google_user_info (JSON_stringify userData) st in
      let st :=
        if nonempty expiry
        then setItem google_token_expiry (default [] expiry) st else st in
      let st :=
        if nonempty refreshToken
        then foldl (λ s e, log e s) st (refresh_token_log (default [] refreshToken))
        else st in
      let st := setUser userData st in
      Return (replaceState st) in
  let st :=
    match attempt with
    | Return st' => st'
    | Throw e => log (ConsoleError (lit "OAuth callback failed:") e) st
    end in
  setIsLoading false st.

(** The effect run when the provider is mounted. *)
Definition mount (net : fetch_outcome) (st : AuthState) : AuthState :=
  let params := search st in
  let accessToken := get (lit "access_token") params in
  let authError := get (lit "auth_error") params in
  if nonempty authError then
    replaceState
      (setIsLoading false
         (log (ConsoleErrorText (lit "OAuth error:") (default [] authError)) st))
  else if nonempty accessToken then handleOAuthCallback params st
  else checkAuth net st.

End Engine.

(** ** The specification of the parser

    These definitions follow the words of the specification; the theorems
    below compare them with the code. *)

(** The lines of the text, as the parser sees them. *)
Definition lines_in (text : jsstring) : list jsstring := split LF (trim text).

(** The fields of the header row. *)
Definition header_row (text : jsstring) : list jsstring :=
  fields (default [] (lines_in text !! 0%nat)).

(** The data rows: the rows after the header. *)
Definition data_rows (text : jsstring) : list (list jsstring) :=
  fields <$> drop 1 (lines_in text).

(** A row is a purchase when its amount field parses to a strictly
    negative number. *)
Definition is_purchase (amountIdx : Z) (cols : list jsstring) : Prop :=
  lt_zero (parseFloat (at_index cols amountIdx)) = true.

#[global] Instance is_purchase_dec amountIdx cols :
  Decision (is_purchase amountIdx cols).
Proof. unfold is_purchase. apply _. Defined.

Definition transaction_of (dateIdx nameIdx amountIdx : Z)
    (cols : list jsstring) : Transaction :=
  {| date := at_index cols dateIdx;
     name := at_index cols nameIdx;
     amount := parseFloat (at_index cols amountIdx) |}.

(** The purchases among the rows, in the order of the rows. *)
Definition spec_purchases (dateIdx nameIdx amountIdx : Z)
    (rows : list (list jsstring)) : list Transaction :=
  transaction_of dateIdx nameIdx amountIdx
    <$> filter (is_purchase amountIdx) rows.

(** The header row has a field that is [h0] up to case. *)
Definition has_header (h0 : string) (headers : list jsstring) : Prop :=
  Exists (λ h, toLowerCase h = lit h0) headers.

(** [i] is the position of the first field that is [h0] up to case. *)
Definition first_header (h0 : string) (headers : list jsstring) (i : Z)
  : Prop :=
  (0 ≤ i)%Z
  ∧ (∃ h, headers !! Z.to_nat i = Some h ∧ toLowerCase h = lit h0)
  ∧ ∀ j h, (j < Z.to_nat i)%nat → headers !! j = Some h →
      toLowerCase h ≠ lit h0.

(** Removing the double quotes that surround a field, and only them. *)
Fixpoint strip_leading_quotes (s : jsstring) : jsstring :=
  match s with
  | c :: s' => if c =? QUOTE then strip_leading_quotes s' else s
  | [] => []
  end.

Definition spec_dequote (s : jsstring) : jsstring :=
  reverse (strip_leading_quotes (reverse (strip_leading_quotes s))).

Definition spec_fields (line : jsstring) : list jsstring :=
  (λ c, spec_dequote (trim c)) <$> split COMMA line.

(** The column that the parser resolves for the header [h0]. *)
Definition header_index (h0 : string) (text : jsstring) : Z :=
  findIndex (is_header h0) (header_row text).

Definition all_headers (text : jsstring) : Prop :=
  has_header "date" (header_row text) ∧ has_header "name" (header_row text)
  ∧ has_header "amount" (header_row text).

#[global] Instance all_headers_dec text : Decision (all_headers text).
Proof. unfold all_headers, has_header. apply _. Defined.

(** ** The specification of the storage keys *)



Definition auth_keys : list jsstring :=
  [google_access_token; google_user_info; google_token_expiry].



(** ** The data of the examples *)

(** The text of the scenario of the specification. *)
Definition statement_text : jsstring :=
  lit "Date,Name,Amount" ++ LF :: lit "01/01/2024,Coffee Shop,-4.50"
    ++ LF :: lit "01/02/2024,Paycheck,1500.00".

(** A header row without the amount column, and no data row. *)
Definition header_only_text : jsstring := lit "Date,Name".

(** The statement of the scenario with its columns in another order. *)
Definition reordered_text : jsstring :=
  lit "AMOUNT, name ,Date" ++ LF :: lit "-4.50,Coffee Shop,01/01/2024"
    ++ LF :: lit "1500.00,Paycheck,01/02/2024".

(** A row whose name has a double quote in the middle. *)
Definition quoted_name : jsstring := lit "Joe" ++ QUOTE :: lit "s Diner".

Definition quoted_text : jsstring :=
  lit "Date,Name,Amount" ++ LF :: lit "01/01/2024," ++ quoted_name
    ++ lit ",-4.50".

(** A statement whose rows are too short: the first has no amount, the
    second has an amount and nothing else. *)
Definition short_rows_text : jsstring :=
  lit "Amount,Date,Name" ++ LF :: LF :: lit "-7".

(** Stand-ins for the engine in the closed examples: the messages of V8,
    and a [Number::toString] that is right on [NaN] and the infinities
    (no other number occurs in the examples). *)
Definition example_TypeError_message (e : exn) : jsstring :=
  match e with
  | NotPrimitive => lit "Cannot convert object to primitive value"
  | _ => lit "Cannot read properties of null (reading 'detail')"
  end.

Definition example_Number_toString (n : number) : jsstring :=
  match n with
  | NaN => lit "NaN"
  | Infinity false => lit "Infinity"
  | Infinity true => lit "-Infinity"
  | Finite _ _ _ => lit "0"
  end.

Definition statement_csv : File :=
  {| file_name := lit "statement.csv"; file_text := Return statement_text |}.

Definition statement_txt : File :=
  {| file_name := lit "statement.txt"; file_text := Return statement_text |}.

(** The state once [statement.csv] has been selected and parsed. *)
Definition ready_app : AppState :=
  handleFile example_TypeError_message statement_csv initial_app.

(** The response of the scenario, and one whose detail is the empty
    string. *)
Definition duplicate_rows : JSON :=
  JObject [(lit "detail", JString (lit "duplicate rows"))].

Definition empty_detail : JSON := JObject [(lit "detail", JString [])].

(** Stand-ins for [JSON.parse] and [JSON.stringify] in the closed
    examples: they know one profile. *)
Definition profile : JSON :=
  JObject [(lit "email", JString (lit "ada@example.com"))].

Definition profile_text : jsstring :=
  lit "{" ++ QUOTE :: lit "email" ++ QUOTE :: lit ":" ++ QUOTE
    :: lit "ada@example.com" ++ QUOTE :: lit "}".

Definition example_JSON_parse (s : jsstring) : completion JSON :=
  if bool_decide (s = profile_text) then Return profile
  else Throw (Error (lit "Unexpected token")).

Definition example_JSON_stringify (v : JSON) : jsstring := profile_text.

(** The query of a callback with a token and no profile, and of one with
    a token and a profile but no expiry. *)
Definition query_without_user : list (jsstring * jsstring) :=
  [(lit "access_token", lit "ya29.token"); (lit "expiry", lit "3600")].

Definition query_without_expiry : list (jsstring * jsstring) :=
  [(lit "access_token", lit "ya29.token"); (lit "user", profile_text)].

(** ** The formatters ([formatSize] and [formatAmount] of [src/App.tsx]) *)

Fixpoint uint_digits (d : Decimal.uint) : jsstring :=
  match d with
  | Decimal.Nil => []
  | Decimal.D0 d => 48 :: uint_digits d
  | Decimal.D1 d => 49 :: uint_digits d
  | Decimal.D2 d => 50 :: uint_digits d
  | Decimal.D3 d => 51 :: uint_digits d
  | Decimal.D4 d => 52 :: uint_digits d
  | Decimal.D5 d => 53 :: uint_digits d
  | Decimal.D6 d => 54 :: uint_digits d
  | Decimal.D7 d => 55 :: uint_digits d
  | Decimal.D8 d => 56 :: uint_digits d
  | Decimal.D9 d => 57 :: uint_digits d
  end.

(** The values of the digits. *)
Fixpoint uint_values (d : Decimal.uint) : list N :=
  match d with
  | Decimal.Nil => []
  | Decimal.D0 d => 0 :: uint_values d
  | Decimal.D1 d => 1 :: uint_values d
  | Decimal.D2 d => 2 :: uint_values d
  | Decimal.D3 d => 3 :: uint_values d
  | Decimal.D4 d => 4 :: uint_values d
  | Decimal.D5 d => 5 :: uint_values d
  | Decimal.D6 d => 6 :: uint_values d
  | Decimal.D7 d => 7 :: uint_values d
  | Decimal.D8 d => 8 :: uint_values d
  | Decimal.D9 d => 9 :: uint_values d
  end.

(** The digits of the decimal representation of an integer: what
    [Number::toString] gives for it below [10^21]. *)
Definition decimal (n : N) : jsstring := uint_digits (N.to_uint n).

(** The integer nearest to [num / den * 10^f], the larger one of two. *)
Definition nearest_scaled (num den : N) (f : nat) : N :=
  (2 * num * 10 ^ N.of_nat f + den) / (2 * den).

(** Steps 11 and 12 of [Number.prototype.toFixed] for the value
    [num / den] (at least zero, below [10^21]) and [f] digits. *)
Definition toFixed_ratio (num den : N) (f : nat) : jsstring :=
  let m := decimal (nearest_scaled num den f) in
  match f with
  | O => m
  | S _ =>
      let m :=
        if bool_decide (length m ≤ f)%nat
        then replicate (f + 1 - length m) 48 ++ m else m in
      take (length m - f) m ++ 46 :: drop (length m - f) m
  end.

(** [formatSize(bytes)] for the size of a file, an integer below [2^53]
    (then [bytes / 1024] is exact). *)
Definition formatSize (bytes : N) : jsstring :=
  if bytes <? 1024 then decimal bytes ++ lit " B"
  else toFixed_ratio bytes 1024 1 ++ lit " KB".

(** [Math.abs(x)] *)
Definition abs (x : number) : number :=
  match x with
  | NaN => NaN
  | Infinity _ => Infinity false
  | Finite _ m e => Finite false m e
  end.

Definition negate (x : number) : number :=
  match x with
  | NaN => NaN
  | Infinity neg => Infinity (negb neg)
  | Finite neg m e => Finite (negb neg) m e
  end.

(** The value [m * 2^e] as a fraction. *)
Definition ratio_of (m : N) (e : Z) : N * N :=
  if (0 <=? e)%Z then (m * 2 ^ Z.to_N e, 1) else (m, 2 ^ Z.to_N (- e)).

Section Formatter.

Variable Number_toString : number → jsstring.

(** [x.toFixed(f)] *)
Definition toFixed (x : number) (f : nat) : jsstring :=
  match x with
  | NaN => lit "NaN"
  | Infinity false => lit "Infinity"
  | Infinity true => lit "-Infinity"
  | Finite neg m e =>
      let '(num, den) := ratio_of m e in
      (if neg && negb (m =? 0) then [45] else [])
      ++ if 10 ^ 21 * den <=? num then Number_toString (Finite false m e)
         else toFixed_ratio num den f
  end.

(** [formatAmount(amount)] *)
Definition formatAmount (amount : number) : jsstring :=
  36 :: toFixed (abs amount) 2.

End Formatter.

(** ** The events of the upload controller *)

Definition setDragActive (b : bool) (st : AppState) : AppState :=
  mkApp (file st) (transactions st) b (error st) (loading st) (result st).

(** [handleFile(f)] up to its [await]. *)
Definition handleFile_begin (f : File) (st : AppState) : AppState :=
  if negb (endsWith (file_name f) (lit ".csv")) then
    setError (Some (lit "Please upload a CSV file")) st
  else setFile (Some f) (setError None st).

(** [disabled={!transactions.length || loading}] of the submit button. *)
Definition submit_disabled (st : AppState) : bool :=
  bool_decide (length (transactions st) = 0%nat) || loading st.

Inductive app_event :=
  | Drop (files : list File)
  | Change (files : list File)
  | DragOver
  | DragLeave
  | Clear
  | Submit (net : fetch_outcome).

Section Controller.

Variable TypeError_message : exn → jsstring.
Variable Number_toString : number → jsstring.

(** What is left of [handleFile(f)] once [f.text()] has settled: it
    writes to the state that is current then. *)
Definition handleFile_resume (f : File) (st : AppState) : AppState :=
  match text ← file_text f; parseCSV text with
  | Return ts => setTransactions ts st
  | Throw err =>
      setTransactions []
        (setError
           (Some (message_or TypeError_message (lit "Failed to parse CSV") err))
           st)
  end.

(** [onDrop(e)], with the files of [e.dataTransfer]. *)
Definition onDrop (files : list File) (st : AppState) : AppState :=
  let st := setDragActive false st in
  match files !! 0%nat with
  | Some f => handleFile TypeError_message f st
  | None => st
  end.

(** [onChange(e)], with the files of [e.target]. *)
Definition onChange (files : list File) (st : AppState) : AppState :=
  match files !! 0%nat with
  | Some f => handleFile TypeError_message f st
  | None => st
  end.

(** One event, its handler run to its end. *)
Definition app_step (st : AppState) (ev : app_event) : AppState :=
  match ev with
  | Drop files => onDrop files st
  | Change files => onChange files st
  | DragOver => setDragActive true st
  | DragLeave => setDragActive false st
  | Clear => clear st
  | Submit net => handleSubmit TypeError_message Number_toString net st
  end.

Definition app_run (events : list app_event) : AppState :=
  foldl app_step initial_app events.

End Controller.

(** A statement with Windows line ends and blank lines around it. *)
Definition windows_text : jsstring :=
  LF :: lit "Date,Name,Amount" ++ 13 :: LF
    :: lit "01/01/2024,Coffee Shop,-4.50" ++ 13 :: LF
    :: lit "01/02/2024,Paycheck,1500.00" ++ [13; LF].

(** ** Lemmas on strings and arrays *)

Lemma findIndex_from_spec {A} (p : A → bool) (l : list A) (i : Z) :
  (findIndex_from p i l = -1 ∧ (0 ≤ i → ∀ x, x ∈ l → p x = false))%Z
  ∨ (∃ k x, findIndex_from p i l = (i + Z.of_nat k)%Z ∧ l !! k = Some x
       ∧ p x = true ∧ ∀ j y, (j < k)%nat → l !! j = Some y → p y = false).
Proof.
  revert i. induction l as [|a l IH]; intros i; simpl.
  - left. split; [done|]. intros _ x Hx. by apply elem_of_nil in Hx.
  - destruct (p a) eqn:Hpa.
    + right. exists 0%nat, a. split_and!; [lia|done|done|]. intros; lia.
    + destruct (IH (i + 1)%Z) as [[Hm Hall]|(k & x & Hk & Hx & Hpx & Hlt)].
      * left. split; [done|]. intros Hi x Hin.
        apply elem_of_cons in Hin as [->|Hin]; [done|]. apply Hall; [lia|done].
      * right. exists (S k), x. split_and!; [lia|done|done|].
        intros [|j] y Hj Hy; simpl in Hy.
        -- by injection Hy as <-.
        -- apply (Hlt j); [lia|done].
Qed.

Lemma findIndex_none {A} (p : A → bool) (l : list A) :
  findIndex p l = (-1)%Z ↔ ∀ x, x ∈ l → p x = false.
Proof.
  unfold findIndex.
  destruct (findIndex_from_spec p l 0) as [[Hm Hall]|(k & x & Hk & Hx & Hpx & _)].
  - split; [intros _; by apply Hall|done].
  - split; [lia|]. intros Hall.
    rewrite (Hall x) in Hpx; [done|]. by eapply list_elem_of_lookup_2.
Qed.

Lemma findIndex_some {A} (p : A → bool) (l : list A) :
  findIndex p l ≠ (-1)%Z →
  ∃ k x, findIndex p l = Z.of_nat k ∧ l !! k = Some x ∧ p x = true
    ∧ ∀ j y, (j < k)%nat → l !! j = Some y → p y = false.
Proof.
  unfold findIndex. intros Hne.
  destruct (findIndex_from_spec p l 0) as [[Hm _]|(k & x & Hk & Hx & Hpx & Hlt)];
    [done|].
  exists k, x. split_and!; [lia|done|done|done].
Qed.

Lemma is_header_true h0 h : is_header h0 h = true ↔ toLowerCase h = lit h0.
Proof. unfold is_header. by rewrite bool_decide_eq_true. Qed.

Lemma is_header_false h0 h : is_header h0 h = false ↔ toLowerCase h ≠ lit h0.
Proof. unfold is_header. by rewrite bool_decide_eq_false. Qed.

Lemma has_header_findIndex h0 headers :
  has_header h0 headers ↔ findIndex (is_header h0) headers ≠ (-1)%Z.
Proof.
  rewrite findIndex_none. split.
  - intros (h & Hin & Hh)%Exists_exists Hall. specialize (Hall h Hin).
    apply is_header_false in Hall. done.
  - intros Hn. destruct (decide (has_header h0 headers)) as [Hex|Hnex]; [done|].
    exfalso. apply Hn. intros x Hx. apply is_header_false. intros Heq.
    apply Hnex, Exists_exists. by exists x.
Qed.

Lemma first_header_findIndex h0 headers :
  has_header h0 headers →
  first_header h0 headers (findIndex (is_header h0) headers).
Proof.
  intros Hh. apply has_header_findIndex, findIndex_some in Hh
    as (k & x & -> & Hx & Hpx & Hlt).
  split; [lia|]. rewrite Nat2Z.id. split.
  - exists x. split; [done|]. by apply is_header_true.
  - intros j h Hj Hjh. apply is_header_false. by eapply Hlt.
Qed.

Lemma split_from_length sep cur s :
  length (split_from sep cur s) = S (length (filter (λ c, c = sep) s)).
Proof.
  revert cur. induction s as [|c s IH]; intros cur; simpl; [done|].
  rewrite filter_cons. destruct (N.eqb_spec c sep) as [->|Hne].
  - rewrite decide_True by done. simpl. by rewrite IH.
  - rewrite decide_False by done. apply IH.
Qed.

Lemma split_from_no_sep sep cur s :
  sep ∉ s → split_from sep cur s = [cur ++ s].
Proof.
  revert cur. induction s as [|c s IH]; intros cur Hs; simpl.
  - by rewrite app_nil_r.
  - apply not_elem_of_cons in Hs as [Hc Hs].
    destruct (N.eqb_spec c sep) as [->|_]; [done|].
    rewrite IH by done. by rewrite <- app_assoc.
Qed.

Lemma split_length_1 sep s : (length (split sep s) < 2)%nat → sep ∉ s.
Proof.
  unfold split. rewrite split_from_length. intros Hlen Hin.
  assert (sep ∈ filter (λ c, c = sep) s) as Hf.
  { by apply list_elem_of_filter. }
  destruct (filter (λ c, c = sep) s); [by apply elem_of_nil in Hf|simpl in Hlen; lia].
Qed.

Lemma split_lookup_0 sep s : is_Some (split sep s !! 0%nat).
Proof.
  apply lookup_lt_is_Some. unfold split. rewrite split_from_length. lia.
Qed.

Lemma trimStart_suffix s : trimStart s `suffix_of` s.
Proof.
  induction s as [|c s IH]; simpl; [done|].
  destruct (isWhiteSpace c); [by apply suffix_cons_r|done].
Qed.

Lemma trimEnd_prefix s : trimEnd s `prefix_of` s.
Proof.
  unfold trimEnd. destruct (trimStart_suffix (reverse s)) as [k Hk].
  exists (reverse k). apply (inj reverse).
  by rewrite reverse_app, !reverse_involutive.
Qed.

Lemma trim_sublist s : trim s `sublist_of` s.
Proof.
  unfold trim. destruct (trimEnd_prefix (trimStart s)) as [k1 Hk1].
  destruct (trimStart_suffix s) as [k2 Hk2].
  rewrite Hk2 at 2. apply sublist_inserts_l.
  rewrite Hk1 at 2. by apply sublist_inserts_r.
Qed.

Lemma trim_elem_of c s : c ∈ trim s → c ∈ s.
Proof. intros Hc. eapply elem_of_sublist; [done|apply trim_sublist]. Qed.

Lemma replace_quotes_no_quote s : QUOTE ∉ replace_quotes s.
Proof. unfold replace_quotes. rewrite list_elem_of_filter. by intros [? _]. Qed.

Lemma replace_quotes_id s : QUOTE ∉ s → replace_quotes s = s.
Proof.
  unfold replace_quotes. induction s as [|c s IH]; intros Hs; [done|].
  apply not_elem_of_cons in Hs as [Hc Hs].
  rewrite filter_cons, decide_True by done. by rewrite IH.
Qed.

Lemma fields_no_quote line f : f ∈ fields line → QUOTE ∉ f.
Proof.
  unfold fields. intros (c & -> & _)%list_elem_of_fmap.
  apply replace_quotes_no_quote.
Qed.

Lemma at_index_elem_of {A} (l : list A) i x : at_index l i = Some x → x ∈ l.
Proof.
  unfold at_index. destruct (i <? 0)%Z; [done|]. apply list_elem_of_lookup_2.
Qed.

Lemma at_index_short {A} (l : list A) (i : Z) :
  (Z.of_nat (length l) ≤ i)%Z → at_index l i = None.
Proof.
  unfold at_index. intros Hi. destruct (i <? 0)%Z; [done|].
  apply lookup_ge_None. lia.
Qed.

Lemma parseFloat_undefined : parseFloat None = NaN.
Proof. reflexivity. Qed.

(** ** The loop of the parser *)

Lemma push_row_spec d n a acc cols :
  push_row d n a acc cols = acc ++ spec_purchases d n a [cols].
Proof.
  unfold push_row, spec_purchases. rewrite filter_cons, filter_nil.
  destruct (decide (is_purchase a cols)) as [Hp|Hp]; unfold is_purchase in Hp.
  - by rewrite Hp.
  - apply not_true_is_false in Hp. rewrite Hp. simpl. by rewrite app_nil_r.
Qed.

Lemma spec_purchases_cons d n a cols rows :
  spec_purchases d n a (cols :: rows)
  = spec_purchases d n a [cols] ++ spec_purchases d n a rows.
Proof.
  unfold spec_purchases. rewrite !filter_cons, filter_nil.
  destruct (decide (is_purchase a cols)); done.
Qed.

(** The loop never runs out of iterations, never reads past the last
    line, and pushes the purchases of the rows from [i] on. *)
Lemma for_rows_spec k lines d n a i acc :
  (length lines - i ≤ k)%nat →
  for_rows k lines d n a i acc
  = Return (acc ++ spec_purchases d n a (fields <$> drop i lines)).
Proof.
  revert i acc. induction k as [|k IH]; intros i acc Hk.
  - simpl. rewrite bool_decide_eq_false_2 by lia.
    rewrite drop_ge by lia. simpl. by rewrite app_nil_r.
  - simpl. case_bool_decide as Hi.
    + destruct (lookup_lt_is_Some_2 lines i Hi) as [line Hline].
      rewrite Hline.
      rewrite IH by lia.
      rewrite push_row_spec, <- app_assoc.
      rewrite (drop_S lines line i Hline). rewrite fmap_cons.
      by rewrite (spec_purchases_cons d n a (fields line) (_ <$> _)).
    + rewrite drop_ge by lia. simpl. by rewrite app_nil_r.
Qed.

(** ** The parser against its specification *)

(** The three outcomes of the parser. *)
Lemma parseCSV_cases text :
  parseCSV text =
    if decide (length (lines_in text) < 2)%nat then Return []
    else if decide (all_headers text) then
      Return (spec_purchases (header_index "date" text)
                (header_index "name" text) (header_index "amount" text)
                (data_rows text))
    else Throw (Error missing_columns).
Proof.
  unfold parseCSV. fold (lines_in text).
  destruct (decide (length (lines_in text) < 2)%nat) as [Hlen|Hlen].
  { by rewrite bool_decide_eq_true_2. }
  rewrite bool_decide_eq_false_2 by done.
  destruct (split_lookup_0 LF (trim text)) as [line0 Hline0].
  assert (header_row text = fields line0) as Hh.
  { unfold header_row, lines_in. by rewrite Hline0. }
  fold (lines_in text) in Hline0. rewrite Hline0.
  destruct (decide (all_headers text)) as [Hall|Hall];
    unfold all_headers, header_index in *; rewrite Hh in *;
    rewrite !has_header_findIndex in Hall.
  - destruct Hall as (Hd & Hn & Ha).
    rewrite !bool_decide_eq_false_2 by done. simpl.
    rewrite for_rows_spec by lia. done.
  - repeat case_bool_decide; simpl; try done. naive_solver.
Qed.

Lemma data_rows_short text :
  (length (lines_in text) < 2)%nat → data_rows text = [].
Proof. intros Hlen. unfold data_rows. by rewrite drop_ge by lia. Qed.

Lemma parseCSV_Return_inv text ts :
  parseCSV text = Return ts →
  ts = spec_purchases (header_index "date" text) (header_index "name" text)
         (header_index "amount" text) (data_rows text).
Proof.
  rewrite parseCSV_cases. intros Hts.
  destruct (decide (length (lines_in text) < 2)%nat) as [Hlen|_].
  - injection Hts as <-. by rewrite data_rows_short.
  - destruct (decide (all_headers text)); [by injection Hts|done].
Qed.

(** C1: what [parseCSV] returns is the sequence of the data rows whose
    amount parses to a strictly negative number, in the order of the rows;
    the rows whose amount is positive, zero or not a number are left out. *)
Theorem parseCSV_purchases_in_order text ts :
  parseCSV text = Return ts →
  ts = spec_purchases (header_index "date" text) (header_index "name" text)
         (header_index "amount" text) (data_rows text).
Proof. apply parseCSV_Return_inv. Qed.

Lemma parseCSV_purchases_in_order_witness :
  ∃ ts, parseCSV statement_text = Return ts ∧ length ts = 1%nat
    ∧ ts = spec_purchases (header_index "date" statement_text)
             (header_index "name" statement_text)
             (header_index "amount" statement_text)
             (data_rows statement_text).
Proof.
  eexists. split; [vm_compute; reflexivity|]. split; [reflexivity|].
  apply (parseCSV_purchases_in_order statement_text). vm_compute. reflexivity.
Defined.

(** C3: the statement of the scenario parses to exactly one transaction,
    the purchase at the coffee shop; its amount is [-(9 * 2^49) * 2^-50],
    that is [-4.5]. *)
Theorem parseCSV_statement :
  parseCSV statement_text
  = Return [ {| date := Some (lit "01/01/2024");
                name := Some (lit "Coffee Shop");
                amount := Finite true (9 * 2 ^ 49) (-50) |} ].
Proof. vm_compute. reflexivity. Qed.

(** C5: a text with fewer than two lines parses to the empty sequence,
    and nothing is thrown, whatever its only line holds. *)
Theorem parseCSV_fewer_than_two_lines text :
  (length (split LF text) < 2)%nat → parseCSV text = Return [].
Proof.
  intros Hlen. rewrite parseCSV_cases.
  rewrite decide_True; [done|].
  unfold lines_in, split. rewrite split_from_no_sep; [simpl; lia|].
  intros Hin. by apply trim_elem_of, (split_length_1 _ _ Hlen) in Hin.
Qed.

Lemma parseCSV_fewer_than_two_lines_witness :
  (length (split LF (lit "no header here")) < 2)%nat
  ∧ parseCSV (lit "no header here") = Return [].
Proof.
  split; [vm_compute; lia|].
  apply (parseCSV_fewer_than_two_lines (lit "no header here")).
  vm_compute. lia.
Defined.

(** C2, as stated, fails on a text of one line: its header row lacks the
    amount column and the parser returns the empty sequence. *)
Lemma parseCSV_missing_header_one_line :
  ¬ all_headers header_only_text ∧ parseCSV header_only_text = Return [].
Proof.
  split; [|vm_compute; reflexivity].
  intros (_ & _ & Ha). apply has_header_findIndex in Ha.
  apply Ha. vm_compute. reflexivity.
Qed.

(** C2 (amended): for a text of at least two lines, the parser throws the
    error of the missing columns when the header row lacks one of the
    three names (up to case); otherwise it returns, and each column is
    the position of the first header field of that name, wherever it is. *)
Theorem parseCSV_missing_header text :
  (2 ≤ length (lines_in text))%nat →
  (¬ all_headers text → parseCSV text = Throw (Error missing_columns))
  ∧ (all_headers text →
     ∃ d n a,
       first_header "date" (header_row text) d
       ∧ first_header "name" (header_row text) n
       ∧ first_header "amount" (header_row text) a
       ∧ parseCSV text = Return (spec_purchases d n a (data_rows text))).
Proof.
  intros Hlen. rewrite parseCSV_cases.
  rewrite decide_False by lia. split; intros Hall.
  - by rewrite decide_False.
  - rewrite decide_True by done. destruct Hall as (Hd & Hn & Ha).
    exists (header_index "date" text), (header_index "name" text),
      (header_index "amount" text).
    split_and!; [by apply first_header_findIndex..|done].
Qed.

Lemma parseCSV_missing_header_witness :
  (parseCSV header_only_text = Return [])
  ∧ (parseCSV (header_only_text ++ LF :: lit "01/01/2024,Coffee Shop")
     = Throw (Error missing_columns))
  ∧ (parseCSV reordered_text = parseCSV statement_text).
Proof.
  split; [vm_compute; reflexivity|]. split.
  - apply (parseCSV_missing_header
             (header_only_text ++ LF :: lit "01/01/2024,Coffee Shop")).
    + vm_compute. lia.
    + intros (_ & _ & Ha). apply has_header_findIndex in Ha.
      apply Ha. vm_compute. reflexivity.
  - vm_compute. reflexivity.
Defined.

(** C4, as stated, fails: the double quote in the middle of a field is
    removed with the others, and the name of the transaction has lost it. *)
Lemma fields_embedded_quote_removed :
  fields quoted_name ≠ spec_fields quoted_name
  ∧ spec_fields quoted_name = [quoted_name]
  ∧ parseCSV quoted_text
    = Return [ {| date := Some (lit "01/01/2024");
                  name := Some (lit "Joes Diner");
                  amount := Finite true (9 * 2 ^ 49) (-50) |} ].
Proof.
  split; [vm_compute; discriminate|].
  split; vm_compute; reflexivity.
Qed.

(** C4 (amended): every field of the header row and of every data row is
    a piece of its line between commas, trimmed of white space and then
    stripped of every double quote; no double quote is left in the date
    and the name of a transaction. *)
Theorem parseCSV_fields_without_quotes text :
  (∀ h, h ∈ header_row text →
     (QUOTE ∉ h)
     ∧ ∃ c, c ∈ split COMMA (default [] (lines_in text !! 0%nat))
         ∧ h = replace_quotes (trim c))
  ∧ (∀ ts t s, parseCSV text = Return ts → t ∈ ts →
       date t = Some s ∨ name t = Some s →
       (QUOTE ∉ s)
       ∧ ∃ line c, line ∈ drop 1 (lines_in text) ∧ c ∈ split COMMA line
           ∧ s = replace_quotes (trim c)).
Proof.
  split.
  - intros h Hh. split; [by eapply fields_no_quote|].
    unfold header_row, fields in Hh.
    apply list_elem_of_fmap in Hh as (c & -> & Hc). by exists c.
  - intros ts t s Hts Ht Hs. apply parseCSV_Return_inv in Hts as ->.
    unfold spec_purchases in Ht.
    apply list_elem_of_fmap in Ht as (cols & -> & Hcols).
    apply list_elem_of_filter in Hcols as [_ Hcols].
    unfold data_rows in Hcols.
    apply list_elem_of_fmap in Hcols as (line & -> & Hline).
    assert (s ∈ fields line) as Hin.
    { destruct Hs as [Hs|Hs]; simpl in Hs; by eapply at_index_elem_of. }
    split; [by eapply fields_no_quote|].
    unfold fields in Hin. apply list_elem_of_fmap in Hin as (c & -> & Hc).
    by exists line, c.
Qed.

Lemma parseCSV_fields_without_quotes_witness :
  (QUOTE ∉ lit "Joes Diner")
  ∧ ∃ line c, line ∈ drop 1 (lines_in quoted_text) ∧ c ∈ split COMMA line
      ∧ lit "Joes Diner" = replace_quotes (trim c).
Proof.
  apply (proj2 (parseCSV_fields_without_quotes quoted_text)
           [ {| date := Some (lit "01/01/2024");
                name := Some (lit "Joes Diner");
                amount := Finite true (9 * 2 ^ 49) (-50) |} ]
           {| date := Some (lit "01/01/2024");
              name := Some (lit "Joes Diner");
              amount := Finite true (9 * 2 ^ 49) (-50) |}).
  - vm_compute. reflexivity.
  - apply list_elem_of_here.
  - right. reflexivity.
Defined.

(** C10: with the three headers the parser returns, whatever the data
    rows hold; all it ever throws is the error of the missing columns; a
    row too short to have an amount is left out, and a purchase too short
    to have a date or a name gets [undefined] there. *)
Theorem parseCSV_total_on_rows text :
  (all_headers text → ∃ ts, parseCSV text = Return ts)
  ∧ (∀ e, parseCSV text = Throw e →
       e = Error missing_columns ∧ ¬ all_headers text
       ∧ (2 ≤ length (lines_in text))%nat)
  ∧ (∀ d n a acc cols, (Z.of_nat (length cols) ≤ a)%Z →
       push_row d n a acc cols = acc)
  ∧ (∀ d n a acc cols, is_purchase a cols →
       ∃ t, push_row d n a acc cols = acc ++ [t]
         ∧ ((Z.of_nat (length cols) ≤ d)%Z → date t = None)
         ∧ ((Z.of_nat (length cols) ≤ n)%Z → name t = None)).
Proof.
  split_and!.
  - intros Hall. rewrite parseCSV_cases.
    destruct (decide (length (lines_in text) < 2)%nat); [by eexists|].
    rewrite decide_True by done. by eexists.
  - intros e. rewrite parseCSV_cases.
    destruct (decide (length (lines_in text) < 2)%nat); [done|].
    destruct (decide (all_headers text)); [done|].
    intros [= <-]. split_and!; [done|done|lia].
  - intros d n a acc cols Hshort. unfold push_row.
    by rewrite at_index_short, parseFloat_undefined.
  - intros d n a acc cols Hp. unfold push_row. unfold is_purchase in Hp.
    rewrite Hp. eexists. split; [done|]. simpl.
    split; apply at_index_short.
Qed.

Lemma parseCSV_total_on_rows_witness :
  parseCSV short_rows_text
  = Return [ {| date := None; name := None;
                amount := Finite true (7 * 2 ^ 50) (-50) |} ].
Proof.
  destruct (proj1 (parseCSV_total_on_rows short_rows_text)) as [ts Hts].
  - split_and!; apply has_header_findIndex; vm_compute; discriminate.
  - rewrite Hts. vm_compute in Hts. injection Hts as <-.
    vm_compute. reflexivity.
Defined.

(** ** The upload controller *)

(** C6, as stated, fails: a file that is not a CSV file is refused, and
    the transactions parsed before it are still there. *)
Lemma handleFile_unsupported_keeps_transactions :
  endsWith (file_name statement_txt) (lit ".csv") = false
  ∧ length (transactions
              (handleFile example_TypeError_message statement_txt ready_app))
    = 1%nat.
Proof. split; vm_compute; reflexivity. Qed.

(** C6 (amended): for a file whose name does not end in [.csv] (lower
    case), [handleFile] sets the error text and changes nothing else: the
    selected file and the transactions stay as they were, so a list that
    was empty stays empty. *)
Theorem handleFile_unsupported tm f st :
  endsWith (file_name f) (lit ".csv") = false →
  handleFile tm f st = setError (Some (lit "Please upload a CSV file")) st
  ∧ error (handleFile tm f st) = Some (lit "Please upload a CSV file")
  ∧ transactions (handleFile tm f st) = transactions st
  ∧ file (handleFile tm f st) = file st
  ∧ (transactions st = [] → transactions (handleFile tm f st) = []).
Proof.
  intros Hname. unfold handleFile. rewrite Hname. simpl. done.
Qed.

Lemma handleFile_unsupported_witness :
  error (handleFile example_TypeError_message statement_txt initial_app)
  = Some (lit "Please upload a CSV file")
  ∧ transactions (handleFile example_TypeError_message statement_txt initial_app)
    = [].
Proof.
  destruct (handleFile_unsupported example_TypeError_message statement_txt
              initial_app) as (_ & He & _ & _ & Ht).
  - vm_compute. reflexivity.
  - split; [exact He|]. apply Ht. reflexivity.
Defined.

(** C7, as stated, fails: the body has a [detail] field, the empty
    string, and the error text is the generic one. *)
Lemma handleSubmit_empty_detail :
  member (lit "detail") [(lit "detail", JString [])] = Some (JString [])
  ∧ error (handleSubmit example_TypeError_message example_Number_toString
             (Response 500 (Return empty_detail)) ready_app)
    = Some (lit "Import failed")
  ∧ Some (lit "Import failed") ≠ Some ([] : jsstring).
Proof. split_and!; [vm_compute; reflexivity..|discriminate]. Qed.

Lemma import_error_object nts members :
  import_error nts (JObject members)
  = Throw
      match member (lit "detail") members with
      | Some d =>
          if truthy d then
            match ToString nts d with
            | Return message => Error message
            | Throw e => e
            end
          else Error (lit "Import failed")
      | None => Error (lit "Import failed")
      end.
Proof.
  unfold import_error. simpl.
  destruct (member (lit "detail") members) as [d|]; simpl; [|done].
  destruct (truthy d); simpl; [|done].
  by destruct (ToString nts d).
Qed.

Lemma handleSubmit_rejected tm nts st status members :
  is_Some (file st) → transactions st ≠ [] → ok status = false →
  error (handleSubmit tm nts (Response status (Return (JObject members))) st)
  = Some
      (message_or tm (lit "Import failed")
         match member (lit "detail") members with
         | Some d =>
             if truthy d then
               match ToString nts d with
               | Return message => Error message
               | Throw e => e
               end
             else Error (lit "Import failed")
         | None => Error (lit "Import failed")
         end).
Proof.
  intros Hfile Hts Hok. unfold handleSubmit.
  rewrite bool_decide_eq_true_2 by done.
  rewrite bool_decide_eq_false_2 by (by destruct (transactions st)).
  simpl. rewrite Hok. simpl. by rewrite import_error_object.
Qed.

(** C7 (amended): when a submission is answered with a status outside
    200-299 and a JSON object, the error text is its [detail] when that is
    a string that is not empty, and [Import failed] when the object has no
    [detail] or a falsy one (the empty string, [null], [false], zero). *)
Theorem handleSubmit_rejected_detail tm nts st status members :
  is_Some (file st) → transactions st ≠ [] → ok status = false →
  let st' :=
    handleSubmit tm nts (Response status (Return (JObject members))) st in
  (∀ s, member (lit "detail") members = Some (JString s) → s ≠ [] →
     error st' = Some s)
  ∧ (member (lit "detail") members = None → error st' = Some (lit "Import failed"))
  ∧ (∀ d, member (lit "detail") members = Some d → truthy d = false →
       error st' = Some (lit "Import failed"))
  ∧ loading st' = false ∧ result st' = None.
Proof.
  intros Hfile Hts Hok st'. subst st'.
  rewrite handleSubmit_rejected by done. split_and!.
  - intros s -> Hs. simpl. rewrite bool_decide_eq_false_2 by done. done.
  - by intros ->.
  - by intros d -> ->.
  - unfold handleSubmit. rewrite bool_decide_eq_true_2 by done.
    rewrite bool_decide_eq_false_2 by (by destruct (transactions st)).
    done.
  - unfold handleSubmit. rewrite bool_decide_eq_true_2 by done.
    rewrite bool_decide_eq_false_2 by (by destruct (transactions st)).
    simpl. rewrite Hok. simpl. by rewrite import_error_object.
Qed.

Lemma handleSubmit_rejected_detail_witness :
  error (handleSubmit example_TypeError_message example_Number_toString
           (Response 500 (Return duplicate_rows)) ready_app)
  = Some (lit "duplicate rows").
Proof.
  apply (handleSubmit_rejected_detail example_TypeError_message
           example_Number_toString ready_app 500
           [(lit "detail", JString (lit "duplicate rows"))]).
  - vm_compute. eexists. reflexivity.
  - vm_compute. discriminate.
  - reflexivity.
  - vm_compute. reflexivity.
  - vm_compute. discriminate.
Defined.

(** ** The auth controller *)

Lemma handleOAuthCallback_missing jp js params st :
  nonempty (get (lit "user") params) = false →
  handleOAuthCallback jp js params st
  = setIsLoading false
      (log (ConsoleError (lit "OAuth callback failed:")
              (Error (lit "Missing authentication data"))) st).
Proof.
  intros Huser. unfold handleOAuthCallback. rewrite Huser.
  by rewrite orb_true_r.
Qed.

(** C8: a callback with an access token and no user profile fails with
    the error of the missing data, which is logged: the user in memory
    is left as it was ([null] on a fresh page), nothing is written to the
    storage, and no call is made on it. *)
Theorem oauth_callback_missing_user jp js net params st :
  get (lit "user") params = None →
  (let st' := handleOAuthCallback jp js params st in
   user st' = user st ∧ storage st' = storage st
   ∧ storage_calls st' = storage_calls st ∧ isLoading st' = false
   ∧ console st'
     = console st ++ [ConsoleError (lit "OAuth callback failed:")
                        (Error (lit "Missing authentication data"))])
  ∧ (search st = params → nonempty (get (lit "access_token") params) = true →
     let st' := mount jp js net st in
     user st' = user st ∧ storage st' = storage st
     ∧ storage_calls st' = storage_calls st ∧ isLoading st' = false).
Proof.
  intros Huser. split.
  - rewrite handleOAuthCallback_missing by by rewrite Huser. done.
  - intros Hsearch Htoken. unfold mount. rewrite Hsearch, Htoken.
    destruct (nonempty (get (lit "auth_error") params)); [done|].
    rewrite handleOAuthCallback_missing by by rewrite Huser. done.
Qed.

Lemma oauth_callback_missing_user_witness :
  let st' :=
    mount example_JSON_parse example_JSON_stringify (Rejected TypeError)
      (initial_auth ∅ query_without_user) in
  user st' = JNull ∧ isAuthenticated st' = false
  ∧ storage st' = ∅ ∧ storage_calls st' = [] ∧ isLoading st' = false.
Proof.
  destruct (oauth_callback_missing_user example_JSON_parse
              example_JSON_stringify (Rejected TypeError) query_without_user
              (initial_auth ∅ query_without_user)) as [_ Hmount].
  - vm_compute. reflexivity.
  - destruct Hmount as (Hu & Hs & Hc & Hl); [reflexivity|vm_compute; reflexivity|].
    cbv zeta. unfold isAuthenticated. rewrite Hu, Hs, Hc, Hl. done.
Defined.




(** ** More on the parser *)

Lemma lt_zero_of_decimal_plus digits exp10 :
  lt_zero (of_decimal false digits exp10) = false.
Proof. unfold of_decimal. repeat case_match; done. Qed.

Lemma parseFloat_negative_minus s :
  lt_zero (parseFloat (Some s)) = true → ∃ r, trimStart s = 45 :: r.
Proof.
  unfold parseFloat. simpl. destruct (trimStart s) as [|c r]; [by vm_compute|].
  unfold sign_prefix. destruct (N.eqb_spec c 45) as [->|_];
    [intros _; by eexists|].
  intros Hlt. exfalso. revert Hlt.
  repeat case_match; simplify_eq; rewrite ?lt_zero_of_decimal_plus; done.
Qed.

Lemma elem_of_spec_purchases d n a rows t :
  t ∈ spec_purchases d n a rows →
  ∃ cols, cols ∈ rows ∧ is_purchase a cols ∧ t = transaction_of d n a cols.
Proof.
  unfold spec_purchases. intros (cols & -> & Hcols)%list_elem_of_fmap.
  apply list_elem_of_filter in Hcols as [Hp Hcols]. by exists cols.
Qed.

Lemma parseCSV_amounts_negative text ts :
  parseCSV text = Return ts → Forall (λ t, lt_zero (amount t) = true) ts.
Proof.
  intros ->%parseCSV_Return_inv. apply Forall_forall.
  by intros t (cols & _ & Hp & ->)%elem_of_spec_purchases.
Qed.

(** X1: the parser returns purchases only: every amount is strictly
    negative, and there are no more transactions than data rows. *)
Theorem parseCSV_only_purchases text ts :
  parseCSV text = Return ts →
  Forall (λ t, lt_zero (amount t) = true) ts
  ∧ (length ts ≤ length (data_rows text))%nat
  ∧ (length ts ≤ length (lines_in text) - 1)%nat.
Proof.
  intros Hts. split; [by eapply parseCSV_amounts_negative|].
  apply parseCSV_Return_inv in Hts as ->. split.
  - unfold spec_purchases. rewrite length_fmap. apply length_filter.
  - unfold spec_purchases, data_rows. rewrite length_fmap.
    etrans; [apply length_filter|]. by rewrite length_fmap, length_drop.
Qed.

Lemma parseCSV_only_purchases_witness :
  ∃ ts, parseCSV statement_text = Return ts
    ∧ Forall (λ t, lt_zero (amount t) = true) ts ∧ (length ts ≤ 2)%nat.
Proof.
  eexists. split; [vm_compute; reflexivity|].
  destruct (parseCSV_only_purchases statement_text _ eq_refl) as (Hneg & Hlen & _).
  split; [exact Hneg|exact Hlen].
Defined.

(** X2: every transaction comes from a data row whose amount field,
    once its leading white space is skipped, starts with a minus sign. *)
Theorem parseCSV_amount_minus_sign text ts t :
  parseCSV text = Return ts → t ∈ ts →
  ∃ cols s r,
    cols ∈ data_rows text
    ∧ at_index cols (header_index "amount" text) = Some s
    ∧ amount t = parseFloat (Some s)
    ∧ trimStart s = 45 :: r.
Proof.
  intros ->%parseCSV_Return_inv (cols & Hcols & Hp & ->)%elem_of_spec_purchases.
  unfold is_purchase in Hp. simpl.
  destruct (at_index cols (header_index "amount" text)) as [s|] eqn:Hs;
    [|by rewrite parseFloat_undefined in Hp].
  destruct (parseFloat_negative_minus s Hp) as [r Hr].
  by exists cols, s, r.
Qed.

Lemma parseCSV_amount_minus_sign_witness :
  ∃ cols s r,
    cols ∈ data_rows statement_text
    ∧ at_index cols (header_index "amount" statement_text) = Some s
    ∧ Finite true (9 * 2 ^ 49) (-50) = parseFloat (Some s)
    ∧ trimStart s = 45 :: r.
Proof.
  apply (parseCSV_amount_minus_sign statement_text
           [ {| date := Some (lit "01/01/2024");
                name := Some (lit "Coffee Shop");
                amount := Finite true (9 * 2 ^ 49) (-50) |} ]
           {| date := Some (lit "01/01/2024");
              name := Some (lit "Coffee Shop");
              amount := Finite true (9 * 2 ^ 49) (-50) |}).
  - vm_compute. reflexivity.
  - apply list_elem_of_here.
Defined.

Lemma trimStart_app s t :
  trimStart (s ++ t)
  = match trimStart s with [] => trimStart t | c :: r => (c :: r) ++ t end.
Proof.
  induction s as [|c s IH]; simpl; [by destruct (trimStart t)|].
  by destruct (isWhiteSpace c).
Qed.

Lemma trimStart_white ws : Forall (λ c, isWhiteSpace c = true) ws → trimStart ws = [].
Proof. induction 1 as [|c ws Hc _ IH]; simpl; [done|]. by rewrite Hc. Qed.

Lemma trimEnd_app_white s ws :
  Forall (λ c, isWhiteSpace c = true) ws → trimEnd (s ++ ws) = trimEnd s.
Proof.
  intros Hws. revert s. induction Hws as [|c ws Hc _ IH]; intros s.
  - by rewrite app_nil_r.
  - replace (s ++ c :: ws) with ((s ++ [c]) ++ ws) by (by rewrite <- app_assoc).
    rewrite IH. unfold trimEnd.
    rewrite reverse_snoc. simpl. by rewrite Hc.
Qed.

Lemma trim_app_white s ws :
  Forall (λ c, isWhiteSpace c = true) ws → trim (s ++ ws) = trim s.
Proof.
  intros Hws. unfold trim. rewrite trimStart_app.
  destruct (trimStart s) as [|c r] eqn:Hs.
  - by rewrite trimStart_white.
  - by rewrite trimEnd_app_white.
Qed.

Lemma trim_white_app ws s :
  Forall (λ c, isWhiteSpace c = true) ws → trim (ws ++ s) = trim s.
Proof.
  intros Hws. unfold trim. by rewrite trimStart_app, trimStart_white.
Qed.

Lemma split_from_snoc sep cur s c :
  c ≠ sep →
  ∃ init last,
    split_from sep cur s = init ++ [last]
    ∧ split_from sep cur (s ++ [c]) = init ++ [last ++ [c]].
Proof.
  intros Hc. revert cur. induction s as [|x s IH]; intros cur; simpl.
  - exists [], cur. destruct (N.eqb_spec c sep); done.
  - destruct (x =? sep).
    + destruct (IH []) as (init & last & -> & ->). by exists (cur :: init), last.
    + apply IH.
Qed.

Lemma fields_snoc_white line w :
  isWhiteSpace w = true → w ≠ COMMA → fields (line ++ [w]) = fields line.
Proof.
  intros Hw Hc. unfold fields, split.
  destruct (split_from_snoc COMMA [] line w Hc) as (init & last & -> & ->).
  rewrite !fmap_app. simpl. rewrite trim_app_white; [done|].
  by apply Forall_singleton.
Qed.

(** The parser looks at the lines through their fields only. *)
Lemma parseCSV_fields_ext text text' :
  fields <$> lines_in text' = fields <$> lines_in text →
  parseCSV text' = parseCSV text.
Proof.
  intros Heq.
  assert (length (lines_in text') = length (lines_in text)) as Hlen.
  { by rewrite <- (length_fmap fields (lines_in text')), Heq, length_fmap. }
  assert (header_row text' = header_row text) as Hh.
  { unfold header_row.
    pose proof (f_equal (λ l, l !! 0%nat) Heq) as H0. simpl in H0.
    rewrite !list_lookup_fmap in H0.
    destruct (lines_in text' !! 0%nat) as [l'|] eqn:Hl';
      destruct (lines_in text !! 0%nat) as [l|] eqn:Hl; simpl in *; try done.
    by injection H0. }
  assert (data_rows text' = data_rows text) as Hd.
  { unfold data_rows. by rewrite !fmap_drop, Heq. }
  rewrite !parseCSV_cases, Hlen.
  destruct (decide (length (lines_in text) < 2)%nat); [done|].
  unfold header_index. rewrite Hh, Hd.
  destruct (decide (all_headers text')) as [H'|H'];
    destruct (decide (all_headers text)) as [H|H]; try done;
    unfold all_headers in *; rewrite Hh in H'; done.
Qed.

(** X3: a carriage return at the end of any line changes nothing: a
    statement with Windows line ends parses as the one with plain line
    feeds. *)
Theorem parseCSV_carriage_returns text text' :
  Forall2 (λ l l', l' = l ∨ l' = l ++ [13]) (lines_in text) (lines_in text') →
  parseCSV text' = parseCSV text.
Proof.
  intros Hlines. apply parseCSV_fields_ext.
  induction Hlines as [|l l' ls ls' [->| ->] _ IH]; [done|..];
    rewrite !fmap_cons, IH; [done|].
  by rewrite fields_snoc_white.
Qed.

(** X4: white space and blank lines before and after the text are
    ignored. *)
Theorem parseCSV_surrounding_white ws text ws' :
  Forall (λ c, isWhiteSpace c = true) ws →
  Forall (λ c, isWhiteSpace c = true) ws' →
  parseCSV (ws ++ text ++ ws') = parseCSV text.
Proof.
  intros Hws Hws'. unfold parseCSV.
  by rewrite trim_white_app, trim_app_white.
Qed.

Lemma parseCSV_carriage_returns_witness :
  parseCSV windows_text = parseCSV statement_text.
Proof.
  apply (parseCSV_carriage_returns statement_text windows_text).
  vm_compute.
  repeat (constructor; [first [left; reflexivity|right; reflexivity]|]).
  constructor.
Defined.

Lemma parseCSV_surrounding_white_witness :
  parseCSV ([LF; 32] ++ statement_text ++ [13; LF; LF])
  = parseCSV statement_text.
Proof.
  apply (parseCSV_surrounding_white [LF; 32] statement_text [13; LF; LF]);
    repeat constructor.
Defined.

Lemma split_from_no_sep_in sep cur s f :
  sep ∉ cur → f ∈ split_from sep cur s → sep ∉ f.
Proof.
  revert cur. induction s as [|c s IH]; intros cur Hcur; simpl.
  - by intros ->%list_elem_of_singleton.
  - destruct (N.eqb_spec c sep) as [->|Hne].
    + intros [->|Hin]%elem_of_cons; [done|].
      apply (IH []); [apply not_elem_of_nil|done].
    + apply IH. intros [?|?%list_elem_of_singleton]%elem_of_app; [done|].
      congruence.
Qed.

(** X5: a line always has one field more than it has commas, and no
    field holds a comma: double quotes do not protect the commas between
    them. *)
Theorem fields_split_on_every_comma line :
  length (fields line) = S (length (filter (λ c, c = COMMA) line))
  ∧ ∀ f, f ∈ fields line → COMMA ∉ f.
Proof.
  split.
  - unfold fields, split. by rewrite length_fmap, split_from_length.
  - unfold fields. intros f (c & -> & Hc)%list_elem_of_fmap Hin.
    apply (split_from_no_sep_in COMMA [] line c); [apply not_elem_of_nil|done|].
    apply trim_elem_of. unfold replace_quotes in Hin.
    by apply list_elem_of_filter in Hin as [_ Hin].
Qed.

Lemma fields_split_on_every_comma_witness :
  length (fields (QUOTE :: lit "Smith, John" ++ QUOTE :: lit ",-4.50")) = 3%nat
  ∧ fields (QUOTE :: lit "Smith, John" ++ QUOTE :: lit ",-4.50")
    = [lit "Smith"; lit "John"; lit "-4.50"].
Proof.
  split; [|vm_compute; reflexivity].
  rewrite (proj1 (fields_split_on_every_comma
                    (QUOTE :: lit "Smith, John" ++ QUOTE :: lit ",-4.50"))).
  vm_compute. reflexivity.
Defined.

(** ** The formatters *)

Lemma uint_digits_values d : uint_digits d = (λ v, v + 48) <$> uint_values d.
Proof. induction d as [|d IH|d IH|d IH|d IH|d IH|d IH|d IH|d IH|d IH|d IH];
  simpl; by rewrite ?IH. Qed.

Lemma uint_values_lt d : Forall (λ v, v < 10) (uint_values d).
Proof. induction d; simpl; [constructor|constructor; [lia|done]..]. Qed.

Lemma digits_prefix_values vs rest :
  Forall (λ v, v < 10) vs →
  (∀ c r, rest = c :: r → isDigit c = false) →
  digits_prefix (((λ v, v + 48) <$> vs) ++ rest) = (vs, rest).
Proof.
  intros Hvs Hrest. induction Hvs as [|v vs Hv _ IH]; simpl.
  - destruct rest as [|c r]; simpl; [done|]. by rewrite (Hrest c r).
  - assert (isDigit (v + 48) = true) as ->.
    { unfold isDigit. apply andb_true_iff. split; apply N.leb_le; lia. }
    unfold fmap in IH. rewrite IH. f_equal. f_equal. lia.
Qed.

Lemma of_uint_acc_values d acc :
  N.pos (Pos.of_uint_acc d acc)
  = foldl (λ a v, 10 * a + v) (N.pos acc) (uint_values d).
Proof.
  revert acc. induction d; intros acc; simpl; [done|rewrite IHd; f_equal; lia..].
Qed.

Lemma digits_value_uint d : digits_value (uint_values d) = N.of_uint d.
Proof.
  unfold digits_value, N.of_uint.
  induction d; simpl; [done|done|by rewrite of_uint_acc_values..].
Qed.

Lemma digits_value_decimal n : digits_value (uint_values (N.to_uint n)) = n.
Proof. rewrite digits_value_uint. apply DecimalN.Unsigned.of_to. Qed.

Lemma digits_value_zeros k vs :
  digits_value (replicate k 0 ++ vs) = digits_value vs.
Proof. unfold digits_value. induction k as [|k IH]; simpl; done. Qed.

Lemma digits_value_snoc vs d : digits_value (vs ++ [d]) = 10 * digits_value vs + d.
Proof. unfold digits_value. by rewrite foldl_app. Qed.

Lemma nearest_scaled_bounds num den f :
  0 < den →
  2 * den * nearest_scaled num den f ≤ 2 * num * 10 ^ N.of_nat f + den
  ∧ 2 * num * 10 ^ N.of_nat f + den < 2 * den * (nearest_scaled num den f + 1).
Proof.
  intros Hden. unfold nearest_scaled.
  generalize (2 * num * 10 ^ N.of_nat f + den). intros a.
  assert (2 * den ≠ 0) as Hb by lia.
  pose proof (N.div_mod a (2 * den) Hb) as Hdm.
  pose proof (N.mod_lt a (2 * den) Hb) as Hlt.
  revert Hdm Hlt. generalize (a / (2 * den)) (a mod (2 * den)). intros q r.
  nia.
Qed.

Lemma point_shape (vs : list N) f :
  (S f < length vs)%nat → Forall (λ v, v < 10) vs →
  ∃ va vb,
    take (length ((λ v, v + 48) <$> vs) - S f) ((λ v, v + 48) <$> vs)
      ++ 46 :: drop (length ((λ v, v + 48) <$> vs) - S f) ((λ v, v + 48) <$> vs)
    = ((λ v, v + 48) <$> va) ++ 46 :: ((λ v, v + 48) <$> vb)
    ∧ length vb = S f ∧ va ≠ [] ∧ Forall (λ v, v < 10) (va ++ vb)
    ∧ va ++ vb = vs.
Proof.
  intros Hlen Hlt.
  exists (take (length vs - S f) vs), (drop (length vs - S f) vs).
  rewrite length_fmap, <- fmap_take, <- fmap_drop, take_drop.
  split_and!; [done|rewrite length_drop; lia| |done|done].
  intros Hnil. apply (f_equal length) in Hnil.
  rewrite length_take in Hnil. simpl in Hnil. lia.
Qed.

(** The string of [toFixed]: the digits of the nearest integer, padded
    with zeros, the point before the last [f] of them. *)
Lemma toFixed_ratio_shape num den f :
  ∃ va vb,
    toFixed_ratio num den (S f)
    = ((λ v, v + 48) <$> va) ++ 46 :: ((λ v, v + 48) <$> vb)
    ∧ length vb = S f ∧ va ≠ [] ∧ Forall (λ v, v < 10) (va ++ vb)
    ∧ digits_value (va ++ vb) = nearest_scaled num den (S f).
Proof.
  unfold toFixed_ratio, decimal. cbv zeta.
  rewrite uint_digits_values, length_fmap.
  pose proof (digits_value_decimal (nearest_scaled num den (S f))) as Hval.
  pose proof (uint_values_lt (N.to_uint (nearest_scaled num den (S f)))) as Hlt.
  revert Hval Hlt.
  generalize (uint_values (N.to_uint (nearest_scaled num den (S f)))).
  intros vs0 Hval Hlt. case_bool_decide as Hshort.
  - replace (replicate (S f + 1 - length vs0) 48)
      with ((λ v, v + 48) <$> replicate (S f + 1 - length vs0) 0)
      by (by rewrite fmap_replicate).
    rewrite <- fmap_app.
    destruct (point_shape (replicate (S f + 1 - length vs0) 0 ++ vs0) f)
      as (va & vb & Heq & Hlen & Hva & Hall & Happ).
    + rewrite length_app, length_replicate. lia.
    + apply Forall_app. split; [apply Forall_replicate; lia|done].
    + exists va, vb. split_and!; [done..|].
      by rewrite Happ, digits_value_zeros.
  - destruct (point_shape vs0 f) as (va & vb & Heq & Hlen & Hva & Hall & Happ);
      [lia|done|].
    exists va, vb. split_and!; [done..|]. by rewrite Happ.
Qed.

(** X6: below 1024 the size is shown in bytes: its decimal digits, which
    read back as the size, and the unit. *)
Theorem formatSize_bytes bytes :
  bytes < 1024 →
  ∃ vs, formatSize bytes = ((λ v, v + 48) <$> vs) ++ lit " B"
    ∧ digits_prefix (formatSize bytes) = (vs, lit " B")
    ∧ digits_value vs = bytes.
Proof.
  intros Hlt. exists (uint_values (N.to_uint bytes)).
  unfold formatSize. rewrite (proj2 (N.ltb_lt _ _) Hlt).
  unfold decimal. rewrite uint_digits_values. split_and!; [done| |].
  - apply digits_prefix_values; [apply uint_values_lt|].
    by intros c r [= <- _].
  - apply digits_value_decimal.
Qed.

Lemma formatSize_bytes_witness :
  ∃ vs, formatSize 500 = ((λ v, v + 48) <$> vs) ++ lit " B"
    ∧ digits_prefix (formatSize 500) = (vs, lit " B")
    ∧ digits_value vs = 500.
Proof. apply (formatSize_bytes 500). reflexivity. Defined.

(** X7: from 1024 on the size is shown in kilobytes with one decimal:
    the number shown is the tenth nearest to [bytes / 1024], the larger
    one of two. *)
Theorem formatSize_kilobytes bytes :
  1024 ≤ bytes →
  ∃ va d,
    formatSize bytes = ((λ v, v + 48) <$> va) ++ 46 :: d + 48 :: lit " KB"
    ∧ va ≠ [] ∧ Forall (λ v, v < 10) va ∧ d < 10
    ∧ 1024 * (10 * digits_value va + d) ≤ 10 * bytes + 512
    ∧ 10 * bytes + 512 < 1024 * (10 * digits_value va + d + 1).
Proof.
  intros Hge. unfold formatSize. rewrite (proj2 (N.ltb_ge _ _) Hge).
  destruct (toFixed_ratio_shape bytes 1024 0) as (va & vb & -> & Hlen & Hva & Hlt & Hn).
  destruct vb as [|d [|? ?]]; try done.
  apply Forall_app in Hlt as [Hlta Hltd]. apply Forall_inv in Hltd.
  rewrite digits_value_snoc in Hn.
  destruct (nearest_scaled_bounds bytes 1024 1) as [Hlo Hhi]; [lia|].
  rewrite <- Hn in Hlo, Hhi. change (10 ^ N.of_nat 1) with 10 in *.
  exists va, d. split_and!; [|done|done|done|lia|lia].
  rewrite <- app_assoc. reflexivity.
Qed.

Lemma formatSize_kilobytes_witness :
  ∃ va d,
    formatSize 2048 = ((λ v, v + 48) <$> va) ++ 46 :: d + 48 :: lit " KB"
    ∧ va ≠ [] ∧ Forall (λ v, v < 10) va ∧ d < 10
    ∧ 1024 * (10 * digits_value va + d) ≤ 10 * 2048 + 512
    ∧ 10 * 2048 + 512 < 1024 * (10 * digits_value va + d + 1).
Proof. apply (formatSize_kilobytes 2048). vm_compute. discriminate. Defined.

Lemma ratio_of_den m e : 0 < (ratio_of m e).2.
Proof.
  unfold ratio_of. destruct (0 <=? e)%Z; simpl; [lia|].
  apply N.neq_0_lt_0, N.pow_nonzero. lia.
Qed.

(** X8: an amount that is finite and below [10^21] in magnitude is shown
    as the dollar sign and its magnitude to the nearest cent (the larger
    of two), with two decimals and no sign. *)
Theorem formatAmount_cents nts neg m e :
  (ratio_of m e).1 < 10 ^ 21 * (ratio_of m e).2 →
  ∃ va d1 d2,
    formatAmount nts (Finite neg m e)
    = 36 :: ((λ v, v + 48) <$> va) ++ [46; d1 + 48; d2 + 48]
    ∧ va ≠ [] ∧ Forall (λ v, v < 10) va ∧ d1 < 10 ∧ d2 < 10
    ∧ let cents := 100 * digits_value va + 10 * d1 + d2 in
      2 * (ratio_of m e).2 * cents ≤ 200 * (ratio_of m e).1 + (ratio_of m e).2
      ∧ 200 * (ratio_of m e).1 + (ratio_of m e).2
        < 2 * (ratio_of m e).2 * (cents + 1)
      ∧ formatAmount nts (Finite (negb neg) m e)
        = formatAmount nts (Finite neg m e).
Proof.
  intros Hsmall. unfold formatAmount, abs, toFixed.
  pose proof (ratio_of_den m e) as Hden.
  destruct (ratio_of m e) as [num den]. cbn [fst snd] in *. cbv beta iota.
  rewrite (proj2 (N.leb_gt _ _) Hsmall).
  destruct (toFixed_ratio_shape num den 1) as (va & vb & -> & Hlen & Hva & Hlt & Hn).
  destruct vb as [|d1 [|d2 [|? ?]]]; try done.
  apply Forall_app in Hlt as [Hlta Hltd].
  apply Forall_cons in Hltd as [Hd1 Hd2]. apply Forall_inv in Hd2.
  replace (va ++ [d1; d2]) with ((va ++ [d1]) ++ [d2]) in Hn
    by (by rewrite <- app_assoc).
  rewrite !digits_value_snoc in Hn.
  destruct (nearest_scaled_bounds num den 2) as [Hlo Hhi]; [lia|].
  rewrite <- Hn in Hlo, Hhi. change (10 ^ N.of_nat 2) with 100 in *.
  exists va, d1, d2. split_and!; [done|done|done|done|done|lia|lia|done].
Qed.

Lemma formatAmount_cents_witness :
  ∃ va d1 d2,
    formatAmount example_Number_toString (Finite true (25 * 2 ^ 48) (-49))
    = 36 :: ((λ v, v + 48) <$> va) ++ [46; d1 + 48; d2 + 48]
    ∧ va ≠ [] ∧ Forall (λ v, v < 10) va ∧ d1 < 10 ∧ d2 < 10
    ∧ formatAmount example_Number_toString (Finite true (25 * 2 ^ 48) (-49))
      = lit "$12.50".
Proof.
  destruct (formatAmount_cents example_Number_toString true (25 * 2 ^ 48) (-49))
    as (va & d1 & d2 & Heq & Hva & Hlt & Hd1 & Hd2 & _).
  - vm_compute. reflexivity.
  - exists va, d1, d2. split_and!; [done..|]. vm_compute. reflexivity.
Defined.

(** ** More on the upload controller *)

(** X9: a file whose name ends in [.csv] always replaces the selection
    and the preview: it becomes the selected file, and either its text
    parses, the preview holds its purchases and there is no error, or
    reading or parsing throws, the preview is empty and the error text is
    the message of what was thrown. *)
Theorem handleFile_accepted tm f st :
  endsWith (file_name f) (lit ".csv") = true →
  let st' := handleFile tm f st in
  st' = handleFile_resume tm f (handleFile_begin f st)
  ∧ file st' = Some f ∧ result st' = result st ∧ loading st' = loading st
  ∧ ((∃ text ts, file_text f = Return text ∧ parseCSV text = Return ts
        ∧ transactions st' = ts ∧ error st' = None)
     ∨ (∃ e, (file_text f = Throw e
              ∨ ∃ text, file_text f = Return text ∧ parseCSV text = Throw e)
          ∧ transactions st' = []
          ∧ error st' = Some (message_or tm (lit "Failed to parse CSV") e))).
Proof.
  intros Hname st'. subst st'.
  unfold handleFile, handleFile_resume, handleFile_begin. rewrite Hname. simpl.
  destruct (file_text f) as [text|e]; simpl.
  - destruct (parseCSV text) as [ts|e] eqn:Hparse; simpl.
    + split_and!; [done..|]. left. by exists text, ts.
    + split_and!; [done..|]. right. exists e. split_and!; [|done..].
      right. by exists text.
  - split_and!; [done..|]. right. exists e. split_and!; [by left|done..].
Qed.

Lemma handleFile_accepted_witness :
  file (handleFile example_TypeError_message statement_csv initial_app)
  = Some statement_csv
  ∧ length (transactions
              (handleFile example_TypeError_message statement_csv initial_app))
    = 1%nat.
Proof.
  destruct (handleFile_accepted example_TypeError_message statement_csv
              initial_app) as (_ & Hfile & _).
  - vm_compute. reflexivity.
  - split; [exact Hfile|]. vm_compute. reflexivity.
Defined.

(** A submission that is made: the state after the request has settled. *)
Lemma handleSubmit_run tm nts net st :
  is_Some (file st) → transactions st ≠ [] →
  handleSubmit tm nts net st
  = setLoading false
      (match match net with
             | Rejected e => Throw e
             | Response status json =>
                 if negb (ok status) then err ← json; import_error nts err
                 else json
             end with
       | Return data =>
           setResult (nullable data)
             (setResult None (setError None (setLoading true st)))
       | Throw err =>
           setError (Some (message_or tm (lit "Import failed") err))
             (setResult None (setError None (setLoading true st)))
       end).
Proof.
  intros Hf Hts. unfold handleSubmit.
  rewrite bool_decide_eq_true_2 by done.
  rewrite bool_decide_eq_false_2 by (by destruct (transactions st)). done.
Qed.

(** [new Error(...)] is always thrown, unless making it throws. *)
Lemma import_error_throws nts err : ∃ e, import_error nts err = Throw e.
Proof.
  destruct err; try (by eexists).
  rewrite import_error_object. by eexists.
Qed.

(** What a submission leaves: nothing changed, or the same file and
    transactions, no request in flight, and not both a result and an
    error. *)
Lemma handleSubmit_cases tm nts net st :
  ((file st = None ∨ transactions st = [])
   ∧ handleSubmit tm nts net st = st)
  ∨ (is_Some (file st) ∧ transactions st ≠ []
     ∧ ∃ e r,
         handleSubmit tm nts net st
         = mkApp (file st) (transactions st) (dragActive st) e false r
         ∧ (e = None ∨ r = None)).
Proof.
  destruct (file st) as [f|] eqn:Hf;
    [|left; split; [by left|]; unfold handleSubmit; by rewrite Hf].
  destruct (transactions st) as [|t ts] eqn:Hts;
    [left; split; [by right|]; unfold handleSubmit; by rewrite Hf, Hts|].
  right. split_and!; [done..|].
  rewrite handleSubmit_run by (by rewrite ?Hf, ?Hts).
  match goal with
  | |- context [match ?a with Return _ => _ | Throw _ => _ end] =>
      destruct a as [data|err]
  end.
  - exists None, (nullable data). unfold setLoading, setResult, setError. simpl.
    rewrite Hf, Hts. split; [done|]. by left.
  - eexists _, None. unfold setLoading, setResult, setError. simpl.
    rewrite Hf, Hts. split; [done|]. by right.
Qed.

(** X10: once a file with purchases is selected, a submission whose
    request settles before any other event leaves no request in flight,
    keeps the file and the preview, and never shows both a result and an
    error.  There is no error exactly when the answer is 2xx with a JSON
    body, and there is a result exactly when that body is not [null]: a
    2xx answer whose body is [null] leaves neither. *)
Theorem handleSubmit_settles tm nts net st :
  is_Some (file st) → transactions st ≠ [] →
  let st' := handleSubmit tm nts net st in
  loading st' = false ∧ file st' = file st
  ∧ transactions st' = transactions st
  ∧ (result st' = None ∨ error st' = None)
  ∧ (error st' = None
     ↔ ∃ status data, net = Response status (Return data) ∧ ok status = true)
  ∧ (is_Some (result st')
     ↔ ∃ status data,
         net = Response status (Return data) ∧ ok status = true
         ∧ data ≠ JNull).
Proof.
  intros Hf Hts st'. subst st'. rewrite handleSubmit_run by done.
  destruct net as [e|status [data|e]]; simpl.
  - split_and!; [done|done|done|by left| |].
    + split; [done|]. by intros (? & ? & ? & _).
    + split; [by intros [? ?]|]. by intros (? & ? & ? & _).
  - destruct (ok status) eqn:Hok; simpl.
    + split_and!; [done|done|done|by right| |].
      * split; [|done]. intros _. by exists status, data.
      * split.
        -- intros Hsome. exists status, data. split_and!; [done|done|].
           intros ->. by destruct Hsome.
        -- intros (? & d & [= <- <-] & _ & Hd). destruct data; by eauto.
    + destruct (import_error_throws nts data) as [e ->]. simpl.
      split_and!; [done|done|done|by left| |].
      * split; [done|]. intros (? & ? & [= <- <-] & ?). congruence.
      * split; [by intros [? ?]|]. intros (? & ? & [= <- <-] & ? & _).
        congruence.
  - destruct (ok status); simpl; (split_and!; [done|done|done|by left| |]);
      try (split; [done|]; by intros (? & ? & ? & _));
      (split; [by intros [? ?]|]; by intros (? & ? & ? & _)).
Qed.

Lemma handleSubmit_settles_witness :
  let st' :=
    handleSubmit example_TypeError_message example_Number_toString
      (Rejected (Error (lit "Failed to fetch"))) ready_app in
  loading st' = false ∧ error st' = Some (lit "Failed to fetch")
  ∧ result st' = None.
Proof.
  destruct (handleSubmit_settles example_TypeError_message
              example_Number_toString (Rejected (Error (lit "Failed to fetch")))
              ready_app) as (Hl & _ & _ & _).
  - vm_compute. by eexists.
  - vm_compute. discriminate.
  - split; [exact Hl|]. split; vm_compute; reflexivity.
Defined.

(** X11: what each outcome of the request leaves on the page.  A 2xx
    answer with a JSON body leaves no error and the body as the result,
    [null] when the body is [null].  When [fetch] rejects, or when the
    body of the answer is not JSON (whatever the status), the error text
    is the message of what was thrown.  An answer that is not 2xx gives
    the message of the engine's [TypeError] when its body is [null], and
    when its [detail] is an object with a member named [toString]. *)
Theorem handleSubmit_outcomes tm nts st :
  is_Some (file st) → transactions st ≠ [] →
  (∀ status data, ok status = true →
     error (handleSubmit tm nts (Response status (Return data)) st) = None
     ∧ (data ≠ JNull →
        result (handleSubmit tm nts (Response status (Return data)) st)
        = Some data)
     ∧ result (handleSubmit tm nts (Response status (Return JNull)) st) = None)
  ∧ (∀ msg, error (handleSubmit tm nts (Rejected (Error msg)) st) = Some msg)
  ∧ (∀ status msg,
       error (handleSubmit tm nts (Response status (Throw (Error msg))) st)
       = Some msg)
  ∧ (∀ status, ok status = false →
       error (handleSubmit tm nts (Response status (Return JNull)) st)
       = Some (tm TypeError))
  ∧ (∀ status members ms v, ok status = false →
       member (lit "detail") members = Some (JObject ms) →
       member (lit "toString") ms = Some v →
       error (handleSubmit tm nts
                (Response status (Return (JObject members))) st)
       = Some (tm NotPrimitive)).
Proof.
  intros Hf Hts. split_and!.
  - intros status data Hok. rewrite !handleSubmit_run by done. rewrite Hok.
    split_and!; [done| |done]. intros Hd. by destruct data.
  - intros msg. by rewrite handleSubmit_run.
  - intros status msg. rewrite handleSubmit_run by done. by destruct (ok status).
  - intros status Hok. rewrite handleSubmit_run by done. by rewrite Hok.
  - intros status members ms v Hok Hd Hts'. rewrite handleSubmit_run by done.
    rewrite Hok. simpl. rewrite import_error_object, Hd. simpl.
    by rewrite Hts'.
Qed.

Lemma handleSubmit_outcomes_witness :
  result (handleSubmit example_TypeError_message example_Number_toString
            (Response 200 (Return duplicate_rows)) ready_app)
  = Some duplicate_rows.
Proof.
  destruct (handleSubmit_outcomes example_TypeError_message
              example_Number_toString ready_app) as (Hok & _).
  - vm_compute. by eexists.
  - vm_compute. discriminate.
  - apply (Hok 200%Z duplicate_rows); [reflexivity|discriminate].
Defined.

Lemma handleFile_keeps tm f st :
  loading st = false →
  (transactions st ≠ [] → is_Some (file st)) →
  Forall (λ t, lt_zero (amount t) = true) (transactions st) →
  loading (handleFile tm f st) = false
  ∧ (transactions (handleFile tm f st) ≠ [] → is_Some (file (handleFile tm f st)))
  ∧ Forall (λ t, lt_zero (amount t) = true) (transactions (handleFile tm f st)).
Proof.
  intros Hl Hf Hneg. unfold handleFile.
  destruct (endsWith (file_name f) (lit ".csv")); simpl; [|done].
  destruct (file_text f) as [text|e]; simpl; [|done].
  destruct (parseCSV text) as [ts|e] eqn:Hparse; simpl; [|done].
  split_and!; [done|by eexists|by eapply parseCSV_amounts_negative].
Qed.

Lemma app_step_keeps tm nts st ev :
  loading st = false →
  (transactions st ≠ [] → is_Some (file st)) →
  Forall (λ t, lt_zero (amount t) = true) (transactions st) →
  loading (app_step tm nts st ev) = false
  ∧ (transactions (app_step tm nts st ev) ≠ []
     → is_Some (file (app_step tm nts st ev)))
  ∧ Forall (λ t, lt_zero (amount t) = true) (transactions (app_step tm nts st ev)).
Proof.
  intros Hl Hf Hneg. destruct ev as [files|files| | | |net]; simpl; try done.
  - unfold onDrop. destruct (files !! 0%nat) as [f|]; [|done].
    by apply handleFile_keeps.
  - unfold onChange. destruct (files !! 0%nat) as [f|]; [|done].
    by apply handleFile_keeps.
  - destruct (handleSubmit_cases tm nts net st)
      as [[_ ->]|(_ & _ & e & r & -> & _)]; done.
Qed.

(** X12: as long as every handler runs to its end before the next event,
    no request is in flight between events, the preview holds strictly
    negative amounts only, and a submit button that is enabled has a file
    to send. *)
Theorem app_run_invariant tm nts events :
  let st := app_run tm nts events in
  loading st = false
  ∧ Forall (λ t, lt_zero (amount t) = true) (transactions st)
  ∧ (submit_disabled st = false →
     is_Some (file st) ∧ transactions st ≠ []).
Proof.
  assert (∀ st,
    loading st = false →
    (transactions st ≠ [] → is_Some (file st)) →
    Forall (λ t, lt_zero (amount t) = true) (transactions st) →
    loading (foldl (app_step tm nts) st events) = false
    ∧ (transactions (foldl (app_step tm nts) st events) ≠ []
       → is_Some (file (foldl (app_step tm nts) st events)))
    ∧ Forall (λ t, lt_zero (amount t) = true)
        (transactions (foldl (app_step tm nts) st events))) as Hrun.
  { induction events as [|ev events IH]; intros st Hl Hf Hneg; simpl; [done|].
    destruct (app_step_keeps tm nts st ev Hl Hf Hneg) as (Hl' & Hf' & Hneg').
    by apply IH. }
  destruct (Hrun initial_app) as (Hl & Hf & Hneg); [done|done|constructor|].
  cbv zeta. unfold app_run. split_and!; [done|done|].
  unfold submit_disabled. rewrite Hl, orb_false_r.
  intros Hts%bool_decide_eq_false.
  assert (transactions (foldl (app_step tm nts) initial_app events) ≠ []) as Hne.
  { intros Hnil. apply Hts. by rewrite Hnil. }
  split; [by apply Hf|done].
Qed.

(** X13: the part of [handleFile] after its [await] writes to the state
    of that moment.  When [clear] runs between the selection of a file
    and the end of its reading, the purchases of the file are shown with
    no file selected: the submit button is enabled and does nothing. *)
Theorem handleFile_resume_after_clear tm nts net f st text ts :
  endsWith (file_name f) (lit ".csv") = true →
  file_text f = Return text → parseCSV text = Return ts → ts ≠ [] →
  let st' := handleFile_resume tm f (clear (handleFile_begin f st)) in
  file st' = None ∧ transactions st' = ts
  ∧ (loading st = false → submit_disabled st' = false)
  ∧ handleSubmit tm nts net st' = st'.
Proof.
  intros Hname Htext Hparse Hts st'. subst st'.
  unfold handleFile_resume, handleFile_begin. rewrite Hname, Htext. simpl.
  rewrite Hparse. simpl. split_and!; [done|done| |done].
  intros Hl. unfold submit_disabled. simpl. rewrite Hl.
  rewrite bool_decide_eq_false_2; [done|]. by destruct ts.
Qed.

Lemma handleFile_resume_after_clear_witness :
  let st' :=
    handleFile_resume example_TypeError_message statement_csv
      (clear (handleFile_begin statement_csv initial_app)) in
  file st' = None ∧ length (transactions st') = 1%nat
  ∧ submit_disabled st' = false
  ∧ handleSubmit example_TypeError_message example_Number_toString
      (Response 200 (Return duplicate_rows)) st' = st'.
Proof.
  destruct (handleFile_resume_after_clear example_TypeError_message
              example_Number_toString (Response 200 (Return duplicate_rows))
              statement_csv initial_app statement_text
              [ {| date := Some (lit "01/01/2024");
                   name := Some (lit "Coffee Shop");
                   amount := Finite true (9 * 2 ^ 49) (-50) |} ])
    as (Hf & Ht & Hd & Hs).
  - vm_compute. reflexivity.
  - reflexivity.
  - vm_compute. reflexivity.
  - discriminate.
  - cbv zeta. split_and!; [exact Hf|by rewrite Ht|by apply Hd|exact Hs].
Defined.

Lemma app_run_invariant_witness :
  let st :=
    app_run example_TypeError_message example_Number_toString
      [DragOver; Drop [statement_csv]; Submit (Rejected TypeError);
       Change [statement_txt]] in
  submit_disabled st = false ∧ is_Some (file st) ∧ transactions st ≠ [].
Proof.
  destruct (app_run_invariant example_TypeError_message
              example_Number_toString
              [DragOver; Drop [statement_csv]; Submit (Rejected TypeError);
               Change [statement_txt]]) as (_ & _ & Hsubmit).
  cbv zeta. split; [vm_compute; reflexivity|].
  apply Hsubmit. vm_compute. reflexivity.
Defined.

(** ** More on the auth controller *)

Lemma auth_keys_distinct :
  google_access_token ≠ google_user_info
  ∧ google_access_token ≠ google_token_expiry
  ∧ google_user_info ≠ google_token_expiry.
Proof. split_and!; by vm_compute. Qed.

Lemma not_auth_key k :
  k ∉ auth_keys →
  google_access_token ≠ k ∧ google_user_info ≠ k ∧ google_token_expiry ≠ k.
Proof.
  unfold auth_keys. rewrite !not_elem_of_cons. intros (H1 & H2 & H3 & _).
  split_and!; congruence.
Qed.

Lemma nonempty_Some s : s ≠ [] → nonempty (Some s) = true.
Proof. by destruct s. Qed.

Lemma storage_log_entries st entries :
  storage (foldl (λ s e, log e s) st entries) = storage st
  ∧ user (foldl (λ s e, log e s) st entries) = user st
  ∧ search (foldl (λ s e, log e s) st entries) = search st
  ∧ isLoading (foldl (λ s e, log e s) st entries) = isLoading st.
Proof.
  revert st. induction entries as [|e entries IH]; intros st; simpl; [done|].
  destruct (IH (log e st)) as (-> & -> & -> & ->). done.
Qed.

(** The state after a callback that has its token and a profile that
    parses. *)
Lemma handleOAuthCallback_ok jp js params st token userJson userData :
  get (lit "access_token") params = Some token → token ≠ [] →
  get (lit "user") params = Some userJson → userJson ≠ [] →
  jp userJson = Return userData →
  let st' := handleOAuthCallback jp js params st in
  user st' = userData ∧ isLoading st' = false ∧ search st' = []
  ∧ storage st'
    = match get (lit "expiry") params with
      | Some (c :: e) =>
          <[google_token_expiry:=c :: e]>
            (<[google_user_info:=js userData]>
               (<[google_access_token:=token]> (storage st)))
      | _ =>
          <[google_user_info:=js userData]>
            (<[google_access_token:=token]> (storage st))
      end.
Proof.
  intros Htoken Hne Huser Hne' Hparse st'. subst st'.
  unfold handleOAuthCallback. rewrite Htoken, Huser.
  rewrite !nonempty_Some by done. simpl. rewrite Hparse. simpl.
  destruct (get (lit "expiry") params) as [[|c e]|];
    destruct (nonempty (get (lit "refresh_token") params)); simpl;
    try done;
    match goal with
    | |- context [foldl _ ?s ?es] =>
        destruct (storage_log_entries s es) as (-> & -> & _ & _)
    end; done.
Qed.

(** X14: a callback with a token and a profile that parses signs the
    user in: the profile is the user, the token and the profile are
    stored, the expiry is stored when there is one and the stored one is
    kept when there is none, the query is stripped, and no other key of
    the storage is touched (the refresh token is not stored). *)
Theorem handleOAuthCallback_signs_in jp js params st token userJson userData :
  get (lit "access_token") params = Some token → token ≠ [] →
  get (lit "user") params = Some userJson → userJson ≠ [] →
  jp userJson = Return userData →
  let st' := handleOAuthCallback jp js params st in
  user st' = userData ∧ isLoading st' = false ∧ search st' = []
  ∧ getAccessToken st' = Some token
  ∧ storage st' !! google_user_info = Some (js userData)
  ∧ storage st' !! google_token_expiry
    = match get (lit "expiry") params with
      | Some (c :: e) => Some (c :: e)
      | _ => storage st !! google_token_expiry
      end
  ∧ ∀ k, k ∉ auth_keys → storage st' !! k = storage st !! k.
Proof.
  intros Htoken Hne Huser Hne' Hparse.
  destruct (handleOAuthCallback_ok jp js params st token userJson userData)
    as (Hu & Hl & Hs & Hst); [done..|].
  destruct auth_keys_distinct as (H12 & H13 & H23).
  cbv zeta. unfold getAccessToken, getItem. rewrite Hst.
  split_and!; [done|done|done|..].
  - destruct (get (lit "expiry") params) as [[|c e]|];
      rewrite ?(lookup_insert_ne _ google_token_expiry) by done;
      rewrite ?(lookup_insert_ne _ google_user_info) by done;
      by rewrite lookup_insert_eq.
  - destruct (get (lit "expiry") params) as [[|c e]|];
      rewrite ?(lookup_insert_ne _ google_token_expiry) by done;
      by rewrite lookup_insert_eq.
  - destruct (get (lit "expiry") params) as [[|c e]|];
      rewrite ?lookup_insert_eq; try done;
      by rewrite !lookup_insert_ne by done.
  - intros k (H1 & H2 & H3)%not_auth_key.
    destruct (get (lit "expiry") params) as [[|c e]|];
      by rewrite !lookup_insert_ne by done.
Qed.

Lemma handleOAuthCallback_signs_in_witness :
  let st' :=
    handleOAuthCallback example_JSON_parse example_JSON_stringify
      query_without_expiry
      (initial_auth {[google_token_expiry := lit "1700000000"]}
         query_without_expiry) in
  user st' = profile ∧ getAccessToken st' = Some (lit "ya29.token")
  ∧ storage st' !! google_token_expiry = Some (lit "1700000000").
Proof.
  destruct (handleOAuthCallback_signs_in example_JSON_parse
              example_JSON_stringify query_without_expiry
              (initial_auth {[google_token_expiry := lit "1700000000"]}
                 query_without_expiry)
              (lit "ya29.token") profile_text profile)
    as (Hu & _ & _ & Ht & _ & He & _).
  - reflexivity.
  - discriminate.
  - reflexivity.
  - discriminate.
  - reflexivity.
  - cbv zeta. split_and!; [exact Hu|exact Ht|].
    rewrite He. simpl. apply lookup_singleton_eq.
Defined.

(** The restore of a session whose token passes the check. *)
Lemma checkAuth_ok jp status json st token info u :
  getItem google_access_token st = Some token → token ≠ [] →
  getItem google_user_info st = Some info → info ≠ [] →
  ok status = true → jp info = Return u →
  checkAuth jp (Response status json) st = setIsLoading false (setUser u st).
Proof.
  intros Htoken Hne Hinfo Hne' Hok Hparse. unfold checkAuth.
  rewrite Htoken, Hinfo, !nonempty_Some by done. simpl.
  by rewrite Hok, Hparse.
Qed.

Lemma mount_no_query jp js net stored :
  mount jp js net (initial_auth stored [])
  = checkAuth jp net (initial_auth stored []).
Proof. reflexivity. Qed.

(** X15: a session survives a reload.  After a callback that signs the
    user in, a page loaded later with no query and the same storage, and
    whose token check answers 2xx, has the same user again, provided that
    the engine parses back what it wrote for the profile. *)
Theorem oauth_session_survives_reload
    jp js params st token userJson userData status json :
  get (lit "access_token") params = Some token → token ≠ [] →
  get (lit "user") params = Some userJson → userJson ≠ [] →
  jp userJson = Return userData →
  js userData ≠ [] → jp (js userData) = Return userData →
  ok status = true →
  let st1 := handleOAuthCallback jp js params st in
  let st2 := mount jp js (Response status json) (initial_auth (storage st1) []) in
  user st2 = userData ∧ user st2 = user st1 ∧ isLoading st2 = false
  ∧ storage st2 = storage st1 ∧ storage_calls st2 = [].
Proof.
  intros Htoken Hne Huser Hne' Hparse Hjs Hback Hok.
  destruct (handleOAuthCallback_ok jp js params st token userJson userData)
    as (Hu & _ & _ & Hst); [done..|].
  destruct auth_keys_distinct as (H12 & H13 & H23).
  cbv zeta. rewrite mount_no_query. revert Hu Hst.
  generalize (handleOAuthCallback jp js params st). intros st1 Hu Hst.
  rewrite (checkAuth_ok jp status json _ token (js userData) userData);
    [by rewrite Hu| |done| |done|done|done]; unfold getItem; simpl; rewrite Hst.
  - destruct (get (lit "expiry") params) as [[|c e]|];
      rewrite ?(lookup_insert_ne _ google_token_expiry) by done;
      rewrite ?(lookup_insert_ne _ google_user_info) by done;
      by rewrite lookup_insert_eq.
  - destruct (get (lit "expiry") params) as [[|c e]|];
      rewrite ?(lookup_insert_ne _ google_token_expiry) by done;
      by rewrite lookup_insert_eq.
Qed.

Lemma oauth_session_survives_reload_witness :
  let st1 :=
    handleOAuthCallback example_JSON_parse example_JSON_stringify
      query_without_expiry (initial_auth ∅ query_without_expiry) in
  let st2 :=
    mount example_JSON_parse example_JSON_stringify
      (Response 200 (Return profile)) (initial_auth (storage st1) []) in
  user st2 = profile ∧ isLoading st2 = false.
Proof.
  destruct (oauth_session_survives_reload example_JSON_parse
              example_JSON_stringify query_without_expiry
              (initial_auth ∅ query_without_expiry)
              (lit "ya29.token") profile_text profile 200 (Return profile))
    as (Hu & _ & Hl & _).
  - reflexivity.
  - discriminate.
  - reflexivity.
  - discriminate.
  - reflexivity.
  - discriminate.
  - reflexivity.
  - reflexivity.
  - cbv zeta. split; [exact Hu|exact Hl].
Defined.

(** X16: after signing out, a reload finds nobody signed in, whatever
    the network answers: the three keys are gone, no token is handed
    out, and the storage is not touched again. *)
Theorem signOut_then_reload jp js net st :
  let st1 := signOut st in
  let st2 := mount jp js net (initial_auth (storage st1) []) in
  user st1 = JNull ∧ getAccessToken st1 = None
  ∧ user st2 = JNull ∧ isAuthenticated st2 = false ∧ isLoading st2 = false
  ∧ getAccessToken st2 = None ∧ storage st2 = storage st1
  ∧ storage_calls st2 = [].
Proof.
  cbv zeta.
  assert (storage (signOut st) !! google_access_token = None) as Hnone.
  { unfold signOut, remove_keys. simpl. rewrite !lookup_delete.
    repeat case_decide; done. }
  rewrite mount_no_query.
  assert (checkAuth jp net (initial_auth (storage (signOut st)) [])
          = setIsLoading false (initial_auth (storage (signOut st)) [])) as ->.
  { unfold checkAuth, getItem. cbn [storage initial_auth]. by rewrite Hnone. }
  split_and!; done.
Qed.

(** X17: a callback that carries an error is only logged: the user and
    the storage are left as they are, even when a token and a profile
    come with it, no token check is made, and the query is stripped. *)
Theorem mount_auth_error jp js net st :
  nonempty (get (lit "auth_error") (search st)) = true →
  let st' := mount jp js net st in
  user st' = user st ∧ storage st' = storage st
  ∧ storage_calls st' = storage_calls st
  ∧ search st' = [] ∧ isLoading st' = false
  ∧ console st'
    = console st
      ++ [ConsoleErrorText (lit "OAuth error:")
            (default [] (get (lit "auth_error") (search st)))].
Proof. intros Herr. cbv zeta. unfold mount. rewrite Herr. done. Qed.

Lemma mount_auth_error_witness :
  let st :=
    initial_auth ∅
      ((lit "auth_error", lit "access_denied") :: query_without_expiry) in
  user (mount example_JSON_parse example_JSON_stringify (Rejected TypeError) st)
  = JNull
  ∧ storage
      (mount example_JSON_parse example_JSON_stringify (Rejected TypeError) st)
    = ∅.
Proof.
  destruct (mount_auth_error example_JSON_parse example_JSON_stringify
              (Rejected TypeError)
              (initial_auth ∅
                 ((lit "auth_error", lit "access_denied")
                    :: query_without_expiry))) as (Hu & Hs & _).
  - reflexivity.
  - cbv zeta. split; [exact Hu|exact Hs].
Defined.

(** X18: a stored session whose check fails is wiped: when the request
    is rejected, when its answer is not 2xx, or when the stored profile
    does not parse, the three keys are removed, the user is left as it
    was and the other keys are not touched. *)
Theorem checkAuth_failed_check jp net st token info :
  getItem google_access_token st = Some token → token ≠ [] →
  getItem google_user_info st = Some info → info ≠ [] →
  (∃ e, net = Rejected e)
  ∨ (∃ status json, net = Response status json ∧ ok status = false)
  ∨ (∃ status json e, net = Response status json ∧ jp info = Throw e) →
  let st' := checkAuth jp net st in
  user st' = user st ∧ isLoading st' = false
  ∧ (∀ k, k ∈ auth_keys → storage st' !! k = None)
  ∧ (∀ k, k ∉ auth_keys → storage st' !! k = storage st !! k).
Proof.
  intros Htoken Hne Hinfo Hne' Hnet. cbv zeta.
  assert (∀ s, (∀ k, k ∈ auth_keys → storage (remove_keys s) !! k = None)
             ∧ (∀ k, k ∉ auth_keys →
                  storage (remove_keys s) !! k = storage s !! k)) as Hrm.
  { intros s. unfold remove_keys. simpl. split.
    - intros k Hk. rewrite !lookup_delete.
      destruct (decide (google_token_expiry = k)); [done|].
      destruct (decide (google_user_info = k)); [done|].
      destruct (decide (google_access_token = k)); [done|].
      unfold auth_keys in Hk. rewrite !elem_of_cons, elem_of_nil in Hk.
      destruct Hk as [?|[?|[?|[]]]]; congruence.
    - intros k (H1 & H2 & H3)%not_auth_key.
      by rewrite !lookup_delete_ne by done. }
  unfold checkAuth. rewrite Htoken, Hinfo, !nonempty_Some by done. simpl.
  destruct Hnet as [[e ->]|[(status & json & -> & Hok)
                           |(status & json & e & -> & Hparse)]]; simpl.
  - destruct (Hrm (log (ConsoleError (lit "Auth check failed:") e) st)) as [H1 H2].
    split_and!; [done|done|exact H1|exact H2].
  - rewrite Hok. simpl. destruct (Hrm st) as [H1 H2].
    split_and!; [done|done|exact H1|exact H2].
  - destruct (ok status); simpl.
    + rewrite Hparse. simpl.
      destruct (Hrm (log (ConsoleError (lit "Auth check failed:") e) st))
        as [H1 H2].
      split_and!; [done|done|exact H1|exact H2].
    + destruct (Hrm st) as [H1 H2].
      split_and!; [done|done|exact H1|exact H2].
Qed.

Lemma checkAuth_failed_check_witness :
  let st :=
    initial_auth
      (<[google_access_token:=lit "ya29.token"]>
         (<[google_user_info:=profile_text]>
            {[google_token_expiry := lit "1700000000"]})) [] in
  storage (checkAuth example_JSON_parse (Response 401 (Return JNull)) st)
    !! google_token_expiry = None
  ∧ user (checkAuth example_JSON_parse (Response 401 (Return JNull)) st) = JNull.
Proof.
  destruct (checkAuth_failed_check example_JSON_parse
              (Response 401 (Return JNull))
              (initial_auth
                 (<[google_access_token:=lit "ya29.token"]>
                    (<[google_user_info:=profile_text]>
                       {[google_token_expiry := lit "1700000000"]})) [])
              (lit "ya29.token") profile_text) as (Hu & _ & Hgone & _).
  - unfold getItem. simpl. apply lookup_insert_eq.
  - discriminate.
  - unfold getItem. simpl.
    rewrite lookup_insert_ne by apply auth_keys_distinct.
    apply lookup_insert_eq.
  - discriminate.
  - right. left. by exists 401%Z, (Return JNull).
  - cbv zeta. split; [|exact Hu]. apply Hgone.
    do 2 apply list_elem_of_further. apply list_elem_of_here.
Defined.

(** X19: a storage that lacks the token or the profile (or holds an
    empty one) is left alone: no token check is made, nothing is removed,
    and a token stored without a profile is still handed out while
    nobody is signed in. *)
Theorem checkAuth_incomplete_storage jp net st :
  nonempty (getItem google_access_token st) = false
  ∨ nonempty (getItem google_user_info st) = false →
  checkAuth jp net st = setIsLoading false st
  ∧ getAccessToken (checkAuth jp net st) = getAccessToken st
  ∧ user (checkAuth jp net st) = user st.
Proof.
  intros Hmiss.
  assert (checkAuth jp net st = setIsLoading false st) as ->; [|done].
  unfold checkAuth. destruct Hmiss as [-> | ->]; [done|].
  by rewrite andb_false_r.
Qed.

Lemma checkAuth_incomplete_storage_witness :
  let st := initial_auth {[google_access_token := lit "ya29.token"]} [] in
  getAccessToken (checkAuth example_JSON_parse (Rejected TypeError) st)
  = Some (lit "ya29.token")
  ∧ isAuthenticated (checkAuth example_JSON_parse (Rejected TypeError) st) = false.
Proof.
  destruct (checkAuth_incomplete_storage example_JSON_parse (Rejected TypeError)
              (initial_auth {[google_access_token := lit "ya29.token"]} []))
    as (_ & Ht & Hu).
  - right. unfold getItem. simpl.
    rewrite lookup_singleton_ne by apply auth_keys_distinct. reflexivity.
  - cbv zeta. unfold isAuthenticated. rewrite Ht, Hu. split; [|reflexivity].
    unfold getAccessToken, getItem. simpl. apply lookup_singleton_eq.
Defined.

(** X20: a callback whose profile is not JSON signs nobody in and
    writes nothing; the error is logged and, as the query is stripped on
    success only, the token stays in the address. *)
Theorem handleOAuthCallback_bad_profile jp js params st token userJson e :
  get (lit "access_token") params = Some token → token ≠ [] →
  get (lit "user") params = Some userJson → userJson ≠ [] →
  jp userJson = Throw e →
  handleOAuthCallback jp js params st
  = setIsLoading false (log (ConsoleError (lit "OAuth callback failed:") e) st)
  ∧ user (handleOAuthCallback jp js params st) = user st
  ∧ storage (handleOAuthCallback jp js params st) = storage st
  ∧ storage_calls (handleOAuthCallback jp js params st) = storage_calls st
  ∧ search (handleOAuthCallback jp js params st) = search st.
Proof.
  intros Htoken Hne Huser Hne' Hparse.
  assert (handleOAuthCallback jp js params st
          = setIsLoading false
              (log (ConsoleError (lit "OAuth callback failed:") e) st)) as ->;
    [|done].
  unfold handleOAuthCallback. rewrite Htoken, Huser.
  rewrite !nonempty_Some by done. simpl. by rewrite Hparse.
Qed.

Lemma handleOAuthCallback_bad_profile_witness :
  let params := [(lit "access_token", lit "ya29.token"); (lit "user", lit "{")] in
  search
    (handleOAuthCallback example_JSON_parse example_JSON_stringify params
       (initial_auth ∅ params)) = params.
Proof.
  cbv zeta.
  apply (handleOAuthCallback_bad_profile example_JSON_parse
           example_JSON_stringify
           [(lit "access_token", lit "ya29.token"); (lit "user", lit "{")]
           (initial_auth ∅
              [(lit "access_token", lit "ya29.token"); (lit "user", lit "{")])
           (lit "ya29.token") (lit "{") (Error (lit "Unexpected token"))).
  - reflexivity.
  - discriminate.
  - reflexivity.
  - discriminate.
  - reflexivity.
Defined.

Lemma handleOAuthCallback_frame jp js params st k :
  k ∉ auth_keys →
  storage (handleOAuthCallback jp js params st) !! k = storage st !! k
  ∧ isLoading (handleOAuthCallback jp js params st) = false.
Proof.
  intros (H1 & H2 & H3)%not_auth_key. unfold handleOAuthCallback.
  destruct (negb _ || negb _); [done|].
  destruct (jp _) as [userData|e]; simpl; [|done].
  destruct (nonempty (get (lit "expiry") params));
    destruct (nonempty (get (lit "refresh_token") params)); simpl;
    try match goal with
    | |- context [foldl _ ?s ?es] =>
        destruct (storage_log_entries s es) as (-> & _ & _ & _)
    end; simpl; by rewrite !lookup_insert_ne by done.
Qed.

Lemma checkAuth_frame jp net st k :
  k ∉ auth_keys →
  storage (checkAuth jp net st) !! k = storage st !! k
  ∧ isLoading (checkAuth jp net st) = false.
Proof.
  intros (H1 & H2 & H3)%not_auth_key. unfold checkAuth.
  destruct (nonempty _ && nonempty _); [|done].
  destruct net as [e|status json]; simpl.
  - by rewrite !lookup_delete_ne by done.
  - destruct (ok status); simpl.
    + destruct (jp _) as [u|e]; simpl; [done|].
      by rewrite !lookup_delete_ne by done.
    + by rewrite !lookup_delete_ne by done.
Qed.

(** X21: whatever the query, the storage and the network hold, the
    effect run at mount ends the loading state, and it changes no key
    of the storage but the three of the session: what else is stored is
    left as it is, also by [signOut]. *)
Theorem mount_settles jp js net st k :
  k ∉ auth_keys →
  isLoading (mount jp js net st) = false
  ∧ storage (mount jp js net st) !! k = storage st !! k
  ∧ storage (signOut st) !! k = storage st !! k.
Proof.
  intros Hk. split_and!.
  - unfold mount. destruct (nonempty _); [done|].
    destruct (nonempty _);
      [by apply (handleOAuthCallback_frame jp js (search st) st k)
      |by apply (checkAuth_frame jp net st k)].
  - unfold mount. destruct (nonempty _); [done|].
    destruct (nonempty _);
      [by apply (handleOAuthCallback_frame jp js (search st) st k)
      |by apply (checkAuth_frame jp net st k)].
  - apply not_auth_key in Hk as (H1 & H2 & H3).
    unfold signOut, remove_keys. simpl. by rewrite !lookup_delete_ne by done.
Qed.

Lemma mount_settles_witness :
  storage
    (mount example_JSON_parse example_JSON_stringify (Rejected TypeError)
       (initial_auth {[lit "theme" := lit "dark"]} query_without_expiry))
    !! lit "theme" = Some (lit "dark").
Proof.
  destruct (mount_settles example_JSON_parse example_JSON_stringify
              (Rejected TypeError)
              (initial_auth {[lit "theme" := lit "dark"]} query_without_expiry)
              (lit "theme")) as (_ & Hk & _).
  - unfold auth_keys. rewrite !not_elem_of_cons.
    split_and!; [by vm_compute..|apply not_elem_of_nil].
  - rewrite Hk. simpl. apply lookup_singleton_eq.
Defined.
